(** * Shallow embedding of the C++ FFI generator of cpp_to_rust

    Sources embedded:
    - [src/src/cpp_ffi_generator.rs]: [CGenerator::generate_all] (with
      its header loop), [get_all_methods], [get_pure_virtual_methods],
      [process_methods];
    - [src/cpp_to_rust/cpp_to_rust_common/src/cpp_build_config.rs]:
      [CppBuildConfigData::add_from] and its setters
      ([add_compiler_flags], ...), [CppBuildConfig::new], [add] and
      [eval], [CppBuildPaths] with [add_lib_path], [add_framework_path]
      and [add_include_path];
    - [src/cpp_to_rust/cpp_to_rust_generator/src/serializable.in.rs]:
      the data model ([CppType], [CppMethod], [CppTypeData], [CppData]).

    A Rust [panic!] (or a failing [unwrap]) is the [Panic] outcome; the
    unguarded recursion of the inheritance resolver is run on a fuel
    argument, and running out of fuel ([Diverge]) stands for a recursion
    that does not return. *)

From stdpp Require Import base list strings gmap sorting.
Set Warnings "-register-all".
From Stdlib Require String.



(* ------------------------------------------------------------------ *)
(** ** Outcomes: a small error monad *)

Inductive outcome (A : Type) : Type :=
| Ok (a : A)
| Panic (msg : string)
| Diverge.
Arguments Ok {A} a.
Arguments Panic {A} msg.
Arguments Diverge {A}.

Definition obind {A B} (x : outcome A) (f : A -> outcome B) : outcome B :=
  match x with
  | Ok a => f a
  | Panic msg => Panic msg
  | Diverge => Diverge
  end.

Notation "x <-- c ; k" := (obind c (fun x => k))
  (at level 100, c at next level, right associativity).

(** Two outcomes of the same shape: both [Ok] with related values, both
    [Panic] (with any messages) or both [Diverge]. *)
Definition outcome_rel {A B} (R : A -> B -> Prop) (o1 : outcome A) (o2 : outcome B) : Prop :=
  match o1, o2 with
  | Ok a, Ok b => R a b
  | Panic _, Panic _ => True
  | Diverge, Diverge => True
  | _, _ => False
  end.

(* ------------------------------------------------------------------ *)
(** ** Data model (serializable.in.rs) *)

Inductive CppVisibility := Public | Protected | Private.

Inductive CppMethodKind := Regular | Constructor | Destructor.

Inductive CppTypeIndirection := NoIndirection | Ptr | Ref | PtrRef | PtrPtr | RValueRef.

Inductive CppBuiltInNumericType :=
| Bool | Char | SChar | UChar | WChar | Char16 | Char32 | Short | UShort
| Int | UInt | Long | ULong | LongLong | ULongLong | Int128 | UInt128
| Float | Double | LongDouble.

Inductive CppSpecificNumericTypeKind :=
| Integer (is_signed : bool)
| FloatingPoint.

(** [CppTypeBase] and [CppType] are mutually recursive through class
    template arguments and function pointer signatures. *)
Inductive CppTypeBase :=
| Void
| BuiltInNumeric (t : CppBuiltInNumericType)
| SpecificNumeric (name : string) (bits : Z) (kind : CppSpecificNumericTypeKind)
| PointerSizedInteger (name : string) (is_signed : bool)
| Enum (name : string)
| Class (name : string) (template_arguments : option (list CppType))
| TemplateParameter (nested_level : Z) (index : Z)
| FunctionPointer (return_type : CppType) (arguments : list CppType)
    (allows_variadic_arguments : bool)
with CppType :=
| mkCppType (base : CppTypeBase) (indirection : CppTypeIndirection)
    (is_const : bool) (is_const2 : bool).

Definition base (t : CppType) : CppTypeBase :=
  match t with mkCppType b _ _ _ => b end.

(** Type declarations.  In the version of [cpp_ffi_generator.rs] embedded
    here the base list of a class holds the base types themselves (the code
    matches on [base.base]). *)
Inductive CppTypeKind :=
| EnumKind (values : list string)
| ClassKind (bases : list CppType).

Record CppTypeData := {
  type_name : string;
  type_include_file : string;
  kind : CppTypeKind;
}.

Record CppFunctionArgument := {
  arg_name : string;
  argument_type : CppType;
  has_default_value : bool;
}.

Record CppMethodClassMembership := {
  class_type : CppTypeBase;
  method_kind : CppMethodKind;
  is_virtual : bool;
  is_pure_virtual : bool;
  is_const_method : bool;
  is_static : bool;
  visibility : CppVisibility;
  is_signal : bool;
  is_slot : bool;
}.

Record CppMethod := {
  name : string;
  class_membership : option CppMethodClassMembership;
  return_type : CppType;
  arguments : list CppFunctionArgument;
  allows_variadic_arguments : bool;
  include_file : string;
  template_arguments : option (list string);
}.

(** [CppData] with the fields the generator reads; [dependencies] nests
    the data of linked-against libraries. *)
Inductive CppData :=
| mkCppData (types : list CppTypeData) (methods : list CppMethod)
    (dependencies : list CppData).

Definition types (d : CppData) : list CppTypeData :=
  match d with mkCppData ts _ _ => ts end.
Definition methods (d : CppData) : list CppMethod :=
  match d with mkCppData _ ms _ => ms end.
Definition dependencies (d : CppData) : list CppData :=
  match d with mkCppData _ _ ds => ds end.

(** Modelled from the spec: [CppTypeBase::maybe_name] (cpp_type.rs, not
    in the sources): the name of a named type, [None] otherwise. *)
Definition maybe_name (t : CppTypeBase) : option string :=
  match t with
  | SpecificNumeric n _ _ => Some n
  | PointerSizedInteger n _ => Some n
  | Enum n => Some n
  | Class n _ => Some n
  | _ => None
  end.

(** Modelled from the spec: [CppMethod::class_name] (cpp_method.rs, not in
    the sources): the name of the class the method is a member of. *)
Definition class_name (m : CppMethod) : option string :=
  match class_membership m with
  | Some mem => maybe_name (class_type mem)
  | None => None
  end.

(* ------------------------------------------------------------------ *)
(** ** Inheritance resolver (get_all_methods, get_pure_virtual_methods) *)

Section Resolver.

(** [CppMethod::argument_types_equal] (cpp_method.rs) is not part of the
    sources: the resolver is embedded for any such comparison. *)
Variable argument_types_equal : CppMethod -> CppMethod -> bool.
Variable cpp_data : CppData.

Definition option_string_eqb (o : option string) (s : string) : bool :=
  match o with Some s' => String.eqb s' s | None => false end.

(** [self.cpp_data.methods.iter().filter(|m| m.class_name() == Some(class_name))] *)
Definition own_methods (class_name0 : string) : list CppMethod :=
  List.filter (fun m => option_string_eqb (class_name m) class_name0) (methods cpp_data).

(** [m.class_membership.as_ref().unwrap().is_pure_virtual]; the [unwrap]
    cannot fail on an own method, whose class name is [Some]. *)
Definition method_is_pure_virtual (m : CppMethod) : bool :=
  match class_membership m with
  | Some mem => is_pure_virtual mem
  | None => false
  end.

Definition own_pure_virtual_methods (class_name0 : string) : list CppMethod :=
  List.filter method_is_pure_virtual (own_methods class_name0).

(** [self.cpp_data.types.iter().find(|t| &t.name == class_name)] *)
Definition find_type_info (class_name0 : string) : option CppTypeData :=
  List.find (fun t => String.eqb (type_name t) class_name0) (types cpp_data).

(** [own_methods.iter().find(|m| m.name == method.name &&
    m.argument_types_equal(&method)).is_some()] *)
Definition shadowed (own : list CppMethod) (method : CppMethod) : bool :=
  existsb (fun m => String.eqb (name m) (name method) && argument_types_equal m method) own.

(** The loop [for base in bases { if let CppTypeBase::Class { ref name, .. }
    = base.base { for method in resolve(name) { ... push ... } } }]. *)
Fixpoint inherit_from_bases (resolve : string -> outcome (list CppMethod))
    (own : list CppMethod) (bases : list CppType) (inherited : list CppMethod)
    : outcome (list CppMethod) :=
  match bases with
  | [] => Ok inherited
  | b :: bs =>
      match base b with
      | Class n _ =>
          ms <-- resolve n ;
          inherit_from_bases resolve own bs
            (inherited ++ List.filter (fun method => negb (shadowed own method)) ms)
      | _ => inherit_from_bases resolve own bs inherited
      end
  end.

(** The part shared by both resolvers: [own] is the list compared against
    for shadowing, [pushed] the own methods appended at the end. *)
Definition resolve_step (resolve : string -> outcome (list CppMethod))
    (msg : string) (class_name0 : string) (pushed : list CppMethod)
    : outcome (list CppMethod) :=
  let own := own_methods class_name0 in
  inherited <--
    match find_type_info class_name0 with
    | Some type_info =>
        match kind type_info with
        | ClassKind bases => inherit_from_bases resolve own bases []
        | EnumKind _ => Panic msg
        end
    | None => Ok []  (* log::warning: no type info *)
    end ;
  Ok (inherited ++ pushed).

Fixpoint get_all_methods (fuel : nat) (class_name0 : string) : outcome (list CppMethod) :=
  match fuel with
  | O => Diverge
  | S fuel' =>
      resolve_step (get_all_methods fuel') "get_all_methods: not a class"
        class_name0 (own_methods class_name0)
  end.

Fixpoint get_pure_virtual_methods (fuel : nat) (class_name0 : string)
    : outcome (list CppMethod) :=
  match fuel with
  | O => Diverge
  | S fuel' =>
      resolve_step (get_pure_virtual_methods fuel') "get_pure_virtual_methods: not a class"
        class_name0 (own_pure_virtual_methods class_name0)
  end.

(** [generate_all]: the names of the class types whose pure virtual method
    list is non-empty, in the order of [cpp_data.types]. *)
Fixpoint collect_abstract_classes (fuel : nat) (ts : list CppTypeData)
    : outcome (list string) :=
  match ts with
  | [] => Ok []
  | t :: ts' =>
      match kind t with
      | ClassKind _ =>
          pv <-- get_pure_virtual_methods fuel (type_name t) ;
          rest <-- collect_abstract_classes fuel ts' ;
          Ok (if 0 <? length pv then type_name t :: rest else rest)
      | EnumKind _ => collect_abstract_classes fuel ts'
      end
  end.

Definition generate_abstract_classes (fuel : nat) : outcome (list string) :=
  collect_abstract_classes fuel (types cpp_data).

End Resolver.

(** Whether a base-specifier type is a class type, the case the resolver
    loops over. *)
Definition is_class_base (b : CppType) : bool :=
  match base b with Class _ _ => true | _ => false end.

(* ------------------------------------------------------------------ *)
(** ** Method processing (CGenerator::process_methods) *)

(** The fields of [CGenerator] that [process_methods] reads. *)
Record CGenerator := {
  cpp_data : CppData;
  template_classes : list string;
  abstract_classes : list string;
}.

Definition is_constructor (k : CppMethodKind) : bool :=
  match k with Constructor => true | _ => false end.

Definition is_private (v : CppVisibility) : bool :=
  match v with Private => true | _ => false end.

Definition is_protected (v : CppVisibility) : bool :=
  match v with Protected => true | _ => false end.

(** The checks on [method.class_membership], in the order of the source:
    constructor of an abstract class, private, protected, signal.  [Ok true]
    is a [continue]. *)
Definition skip_for_membership (g : CGenerator) (membership : CppMethodClassMembership)
    : outcome bool :=
  skipped <--
    (if is_constructor (method_kind membership) then
       match maybe_name (class_type membership) with
       | None => Panic "called `Option::unwrap()` on a `None` value"
       | Some class_name0 => Ok (existsb (String.eqb class_name0) (abstract_classes g))
       end
     else Ok false) ;
  Ok (skipped || is_private (visibility membership)
        || is_protected (visibility membership) || is_signal membership).

(** [self.template_classes.iter().find(|x| x == class_name ||
    class_name.starts_with(&format!("{}::", x))).is_some()] *)
Definition is_template_class_method (g : CGenerator) (m : CppMethod) : bool :=
  match class_name m with
  | Some class_name0 =>
      existsb (fun x => String.eqb x class_name0 || String.prefix (x +:+ "::") class_name0)
        (template_classes g)
  | None => false
  end.

(** All the [continue]s of the loop over [methods]. *)
Definition skip_method (g : CGenerator) (method : CppMethod) : outcome bool :=
  skipped <--
    match class_membership method with
    | Some membership => skip_for_membership g membership
    | None => Ok false
    end ;
  if skipped then Ok true
  else match template_arguments method with
       | Some _ => Ok true
       | None => Ok (is_template_class_method g method)
       end.

(** [Vec::dedup]: removes consecutive repeated elements. *)
Fixpoint dedup (l : list string) : list string :=
  match l with
  | x :: ((y :: _) as l') => if String.eqb x y then dedup l' else x :: dedup l'
  | _ => l
  end.

(** Ordering of [CppAndFfiMethod]s by [c_name] ([r.sort_by]). *)
Definition c_name_le {Sig} (a b : Sig * string) : Prop := String.le (snd a) (snd b).

#[global] Instance c_name_le_dec {Sig} : RelDecision (@c_name_le Sig).
Proof. intros a b. unfold c_name_le. apply _. Defined.

(** [slice::sort_by] is a stable sort: elements that compare equal keep
    their relative order.  The result of a stable sort by a total preorder
    is unique; it is computed here by insertion, each element being put
    before the first element it is not greater than. *)
Fixpoint insert_sorted {A} (R : relation A) `{!RelDecision R} (x : A) (l : list A)
    : list A :=
  match l with
  | [] => [x]
  | y :: l' => if decide (R x y) then x :: l else y :: insert_sorted R x l'
  end.

Fixpoint sort_by {A} (R : relation A) `{!RelDecision R} (l : list A) : list A :=
  match l with
  | [] => []
  | x :: l' => insert_sorted R x (sort_by R l')
  end.

Section ProcessMethods.

(** [CppMethodWithFfiSignature], [CppMethod::to_ffi_signatures] ([inl] is
    its [Err]), [c_base_name] and the caption strategies
    ([MethodCaptionStrategy::all()], [caption]) live in files that are not
    part of the sources; [process_methods] is embedded for any of them. *)
Context {Sig : Type}.
Variable to_ffi_signatures : CppMethod -> string + list Sig.
Variable c_base_name : Sig -> string -> string + string.
Context {Strategy : Type}.
Variable all_strategies : list Strategy.
Variable caption : Sig -> Strategy -> string.

(** The [insert_into_hash] closure. *)
Definition insert_into_hash (hash : gmap string (list Sig)) (key : string) (value : Sig)
    : gmap string (list Sig) :=
  match hash !! key with
  | Some values => <[key := values ++ [value]]> hash
  | None => <[key := [value]]> hash
  end.

Definition insert_results (include_file_base_name : string)
    (hash : gmap string (list Sig)) (results : list Sig) : gmap string (list Sig) :=
  fold_left (fun h result =>
      match c_base_name result include_file_base_name with
      | inl _ => h  (* log::warning *)
      | inr name0 => insert_into_hash h name0 result
      end) results hash.

(** The first loop of [process_methods], filling [hash1]. *)
Fixpoint collect_candidates (g : CGenerator) (include_file_base_name : string)
    (ms : list CppMethod) (hash : gmap string (list Sig))
    : outcome (gmap string (list Sig)) :=
  match ms with
  | [] => Ok hash
  | method :: ms' =>
      skipped <-- skip_method g method ;
      if skipped then collect_candidates g include_file_base_name ms' hash
      else match to_ffi_signatures method with
           | inl _ => collect_candidates g include_file_base_name ms' hash
           | inr results =>
               collect_candidates g include_file_base_name ms'
                 (insert_results include_file_base_name hash results)
           end
  end.

(** [type_captions.sort(); type_captions.dedup();
    type_captions.len() == values.len()]; strings are totally ordered, so
    every sorting algorithm gives the same sorted list. *)
Definition captions_unique (values : list Sig) (strategy : Strategy) : bool :=
  let type_captions :=
    dedup (merge_sort String.le (map (fun x => caption x strategy) values)) in
  Nat.eqb (length type_captions) (length values).

(** [format!("{}{}{}", key, if caption.is_empty() { "" } else { "_" }, caption)] *)
Definition caption_name (key : string) (x : Sig) (strategy : Strategy) : string :=
  let c := caption x strategy in
  key +:+ (if String.eqb c "" then "" else "_") +:+ c.

(** One iteration of the loop over [hash1]. *)
Definition process_group (key : string) (values : list Sig)
    : outcome (list (Sig * string)) :=
  match values with
  | [v] => Ok [(v, key)]
  | _ =>
      match List.find (captions_unique values) all_strategies with
      | Some strategy => Ok (map (fun x => (x, caption_name key x strategy)) values)
      | None => Panic "all type caption strategies have failed!"
      end
  end.

Fixpoint process_groups (entries : list (string * list Sig))
    : outcome (list (Sig * string)) :=
  match entries with
  | [] => Ok []
  | (key, values) :: entries' =>
      r1 <-- process_group key values ;
      r2 <-- process_groups entries' ;
      Ok (r1 ++ r2)
  end.

(** [hash_iter] is the iteration order of the [HashMap]: some ordering of
    its entries, unspecified by Rust. *)
Definition process_methods (hash_iter : gmap string (list Sig) -> list (string * list Sig))
    (g : CGenerator) (include_file_base_name : string) (ms : list CppMethod)
    : outcome (list (Sig * string)) :=
  hash1 <-- collect_candidates g include_file_base_name ms ∅ ;
  r <-- process_groups (hash_iter hash1) ;
  Ok (sort_by c_name_le r).

End ProcessMethods.

(** An admissible iteration order of a [HashMap]: a permutation of its entries. *)
Definition hash_iteration_order {V} (hash_iter : gmap string V -> list (string * V)) : Prop :=
  forall h, hash_iter h ≡ₚ map_to_list h.

(* ------------------------------------------------------------------ *)
(** ** Header base name ([generate_all]) *)

(** [str::ends_with] *)
Definition ends_with (s suffix : string) : bool :=
  (String.length suffix <=? String.length s) &&
  String.eqb (String.substring (String.length s - String.length suffix)
                (String.length suffix) s) suffix.

(** [if include_file_base_name.ends_with(".h") {
      include_file_base_name = include_file_base_name[0..len - 2].to_string(); }] *)
Definition include_file_base_name (include_file0 : string) : string :=
  if ends_with include_file0 ".h"
  then String.substring 0 (String.length include_file0 - 2) include_file0
  else include_file0.

(* ------------------------------------------------------------------ *)
(** ** The header loop of [generate_all] *)

(** [CppFfiHeaderData]; its fields [include_file], [include_file_base_name]
    and [methods] are prefixed with [ffi_], the plain names being taken. *)
Record CppFfiHeaderData {Sig : Type} := {
  ffi_include_file : string;
  ffi_include_file_base_name : string;
  ffi_methods : list (Sig * string);
}.
Arguments CppFfiHeaderData : clear implicits.

(** Ordering of headers by [include_file] ([c_headers.sort_by]). *)
Definition header_le {Sig} (a b : CppFfiHeaderData Sig) : Prop :=
  String.le (ffi_include_file a) (ffi_include_file b).

#[global] Instance header_le_dec {Sig} : RelDecision (@header_le Sig).
Proof. intros a b. unfold header_le. apply _. Defined.

Section GenerateAll.

Context {Sig : Type}.
Variable to_ffi_signatures : CppMethod -> string + list Sig.
Variable c_base_name : Sig -> string -> string + string.
Context {Strategy : Type}.
Variable all_strategies : list Strategy.
Variable caption : Sig -> Strategy -> string.
(** The iteration order of [hash1] inside [process_methods]. *)
Variable hash_iter : gmap string (list Sig) -> list (string * list Sig).

(** [for (ref include_file, ref data) in &cpp_data_by_headers { ... }]:
    [QFlags] and [QFlag] are skipped; every other header gets its base name
    and its processed methods, and is pushed to [c_headers] and, by name,
    to [include_name_list]. *)
Fixpoint generate_headers_loop (g : CGenerator) (entries : list (string * CppData))
    (c_headers : list (CppFfiHeaderData Sig)) (include_name_list : list string)
    : outcome (list (CppFfiHeaderData Sig) * list string) :=
  match entries with
  | [] => Ok (c_headers, include_name_list)
  | (include_file0, data0) :: entries' =>
      if String.eqb include_file0 "QFlags" || String.eqb include_file0 "QFlag"
      then generate_headers_loop g entries' c_headers include_name_list
      else
        let base_name := include_file_base_name include_file0 in
        ms <-- process_methods to_ffi_signatures c_base_name all_strategies caption
                 hash_iter g base_name (methods data0) ;
        generate_headers_loop g entries'
          (c_headers ++ [{| ffi_include_file := include_file0;
                            ffi_include_file_base_name := base_name;
                            ffi_methods := ms |}])
          (include_name_list ++ [include_file0])
  end.

(** The loop, then [c_headers.sort_by(|a, b| a.include_file.cmp(&b.include_file))];
    [headers_iter] is the iteration order of [cpp_data_by_headers].  The
    result is [c_headers] with [include_name_list], the list handed to
    [generate_all_headers_file]. *)
Definition generate_headers (headers_iter : gmap string CppData -> list (string * CppData))
    (g : CGenerator) (cpp_data_by_headers : gmap string CppData)
    : outcome (list (CppFfiHeaderData Sig) * list string) :=
  r <-- generate_headers_loop g (headers_iter cpp_data_by_headers) [] [] ;
  let '(c_headers, include_name_list) := r in
  Ok (sort_by header_le c_headers, include_name_list).

(** [generate_all]: the abstract classes are computed first and stored in
    the generator, then the headers of [split_by_headers()] are processed
    ([split_by_headers] is in cpp_data.rs, not part of the sources). *)
Definition generate_all (argument_types_equal : CppMethod -> CppMethod -> bool) (fuel : nat)
    (split_by_headers : CppData -> gmap string CppData)
    (headers_iter : gmap string CppData -> list (string * CppData)) (g : CGenerator)
    : outcome (list (CppFfiHeaderData Sig) * list string) :=
  ac <-- generate_abstract_classes argument_types_equal (cpp_data g) fuel ;
  generate_headers headers_iter
    {| cpp_data := cpp_data g; template_classes := template_classes g;
       abstract_classes := ac |}
    (split_by_headers (cpp_data g)).

End GenerateAll.

(** The entries of the header loop: the headers it keeps, the processing
    of a header's methods, and the header record it builds. *)
Section HeaderLoop.

Context {Sig : Type}.
Variable to_ffi_signatures : CppMethod -> string + list Sig.
Variable c_base_name : Sig -> string -> string + string.
Context {Strategy : Type}.
Variable all_strategies : list Strategy.
Variable caption : Sig -> Strategy -> string.
Variable hash_iter : gmap string (list Sig) -> list (string * list Sig).

(** The headers the loop does not skip. *)
Definition kept_header (e : string * CppData) : bool :=
  negb (String.eqb e.1 "QFlags" || String.eqb e.1 "QFlag").

Definition header_methods (g : CGenerator) (e : string * CppData) :=
  process_methods to_ffi_signatures c_base_name all_strategies caption hash_iter g
    (include_file_base_name e.1) (methods e.2).

Definition header_entry (g : CGenerator) (e : string * CppData)
    (h : CppFfiHeaderData Sig) : Prop :=
  ffi_include_file h = e.1 /\
  ffi_include_file_base_name h = include_file_base_name e.1 /\
  header_methods g e = Ok (ffi_methods h).

End HeaderLoop.

(* ------------------------------------------------------------------ *)
(** ** Build configuration (cpp_build_config.rs) *)

Inductive CppLibraryType := Shared | Static.

Definition library_type_eqb (a b : CppLibraryType) : bool :=
  match a, b with
  | Shared, Shared | Static, Static => true
  | _, _ => false
  end.

Record CppBuildConfigData := {
  linked_libs : list string;
  linked_frameworks : list string;
  compiler_flags : list string;
  library_type : option CppLibraryType;
}.

(** [CppBuildConfigData::default()] *)
Definition default_build_config_data : CppBuildConfigData := {|
  linked_libs := []; linked_frameworks := []; compiler_flags := [];
  library_type := None |}.

(** [Result<T>] of the [errors] module: [inl] is [Err]. *)
Definition add_from (self other : CppBuildConfigData) : string + CppBuildConfigData :=
  let appended := {|
    linked_libs := linked_libs self ++ linked_libs other;
    linked_frameworks := linked_frameworks self ++ linked_frameworks other;
    compiler_flags := compiler_flags self ++ compiler_flags other;
    library_type := library_type self |} in
  match library_type self with
  | Some t =>
      match library_type other with
      | Some t' =>
          if library_type_eqb t' t then inr appended
          else inl "conflicting library types specified"
      | None => inr appended
      end
  | None =>
      inr {| linked_libs := linked_libs appended;
             linked_frameworks := linked_frameworks appended;
             compiler_flags := compiler_flags appended;
             library_type := library_type other |}
  end.

(** [target::Condition], [target::Target] and [Condition::eval] live in
    [target.rs], which is not part of the sources. *)
Record CppBuildConfigItem {Condition : Type} := {
  condition : Condition;
  data : CppBuildConfigData;
}.
Arguments CppBuildConfigItem : clear implicits.

Record CppBuildConfig {Condition : Type} := {
  items : list (CppBuildConfigItem Condition);
}.
Arguments CppBuildConfig : clear implicits.

Section BuildConfigEval.

Context {Condition Target : Type}.
Variable condition_eval : Condition -> Target -> bool.

Fixpoint eval_items (target : Target) (its : list (CppBuildConfigItem Condition))
    (acc : CppBuildConfigData) : string + CppBuildConfigData :=
  match its with
  | [] => inr acc
  | item :: its' =>
      if condition_eval (condition item) target then
        match add_from acc (data item) with
        | inl e => inl e
        | inr acc' => eval_items target its' acc'
        end
      else eval_items target its' acc
  end.

(** [CppBuildConfig::eval] *)
Definition eval (cfg : CppBuildConfig Condition) (target : Target)
    : string + CppBuildConfigData :=
  eval_items target (items cfg) default_build_config_data.

(** [CppBuildConfig::new()] *)
Definition new_build_config : CppBuildConfig Condition := {| items := [] |}.

(** [CppBuildConfig::add]: pushes an item. *)
Definition add (cfg : CppBuildConfig Condition) (condition0 : Condition)
    (data0 : CppBuildConfigData) : CppBuildConfig Condition :=
  {| items := items cfg ++ [{| condition := condition0; data := data0 |}] |}.

End BuildConfigEval.

(** The setters of [CppBuildConfigData]. *)
Definition add_linked_lib (self : CppBuildConfigData) (lib : string) : CppBuildConfigData := {|
  linked_libs := linked_libs self ++ [lib]; linked_frameworks := linked_frameworks self;
  compiler_flags := compiler_flags self; library_type := library_type self |}.

Definition add_linked_framework (self : CppBuildConfigData) (lib : string)
    : CppBuildConfigData := {|
  linked_libs := linked_libs self; linked_frameworks := linked_frameworks self ++ [lib];
  compiler_flags := compiler_flags self; library_type := library_type self |}.

Definition add_compiler_flag (self : CppBuildConfigData) (lib : string) : CppBuildConfigData := {|
  linked_libs := linked_libs self; linked_frameworks := linked_frameworks self;
  compiler_flags := compiler_flags self ++ [lib]; library_type := library_type self |}.

Definition add_compiler_flags (self : CppBuildConfigData) (items0 : list string)
    : CppBuildConfigData :=
  fold_left add_compiler_flag items0 self.

Definition set_library_type (self : CppBuildConfigData) (t : CppLibraryType)
    : CppBuildConfigData := {|
  linked_libs := linked_libs self; linked_frameworks := linked_frameworks self;
  compiler_flags := compiler_flags self; library_type := Some t |}.

(* ------------------------------------------------------------------ *)
(** ** Build paths ([CppBuildPaths]) *)

(** A [PathBuf] as its string. *)
Record CppBuildPaths := {
  lib_paths : list string;
  framework_paths : list string;
  include_paths : list string;
}.

(** [CppBuildPaths::new()] *)
Definition new_build_paths : CppBuildPaths := {|
  lib_paths := []; framework_paths := []; include_paths := [] |}.

Section BuildPaths.

(** [PartialEq] of [PathBuf], which compares paths component-wise (so
    that, e.g., [a/b] and [a//b] are equal): any equality test on strings. *)
Variable path_eqb : string -> string -> bool.

(** [if !paths.contains(&path) { paths.push(path); }] *)
Definition push_path (paths : list string) (path : string) : list string :=
  if existsb (fun x => path_eqb x path) paths then paths else paths ++ [path].

Definition add_lib_path (self : CppBuildPaths) (path : string) : CppBuildPaths := {|
  lib_paths := push_path (lib_paths self) path; framework_paths := framework_paths self;
  include_paths := include_paths self |}.

Definition add_framework_path (self : CppBuildPaths) (path : string) : CppBuildPaths := {|
  lib_paths := lib_paths self; framework_paths := push_path (framework_paths self) path;
  include_paths := include_paths self |}.

Definition add_include_path (self : CppBuildPaths) (path : string) : CppBuildPaths := {|
  lib_paths := lib_paths self; framework_paths := framework_paths self;
  include_paths := push_path (include_paths self) path |}.

End BuildPaths.

(** Reference for the build path lists: the first occurrence of each path
    of a list, in order, later paths equal to an earlier one dropped. *)
Fixpoint first_occurrences (path_eqb : string -> string -> bool) (ps : list string)
    : list string :=
  match ps with
  | [] => []
  | p :: ps' => p :: List.filter (fun q => negb (path_eqb p q)) (first_occurrences path_eqb ps')
  end.

(* ------------------------------------------------------------------ *)
(** ** Sample inputs *)

Module Samples.

Definition class_type_of (n : string) : CppType :=
  mkCppType (Class n None) NoIndirection false false.

Definition void_type : CppType := mkCppType Void NoIndirection false false.

Definition membership (cls : string) (k : CppMethodKind) (pure : bool)
    (vis : CppVisibility) : CppMethodClassMembership := {|
  class_type := Class cls None; method_kind := k; is_virtual := pure;
  is_pure_virtual := pure; is_const_method := false; is_static := false;
  visibility := vis; is_signal := false; is_slot := false |}.

Definition member_method (cls n : string) (k : CppMethodKind) (pure : bool)
    (vis : CppVisibility) : CppMethod := {|
  name := n; class_membership := Some (membership cls k pure vis);
  return_type := void_type; arguments := []; allows_variadic_arguments := false;
  include_file := "a.h"; template_arguments := None |}.

Definition class_decl (n : string) (bases : list CppType) : CppTypeData := {|
  type_name := n; type_include_file := "a.h"; kind := ClassKind bases |}.

(** Argument lists compared by their names only: enough for the samples. *)
Definition sample_argument_types_equal (m1 m2 : CppMethod) : bool :=
  bool_decide (map arg_name (arguments m1) = map arg_name (arguments m2)).

(** A class [B] with a method [h], whose only base is the template
    parameter [T]. *)
Definition template_param_type : CppType :=
  mkCppType (TemplateParameter 0 0) NoIndirection false false.

Definition method_h_of_B : CppMethod := member_method "B" "h" Regular false Public.

Definition data_template_base : CppData :=
  mkCppData [class_decl "B" [template_param_type]] [method_h_of_B] [].

(** A class [B] of the library deriving from a class [A] declared, with its
    pure virtual method [f], only in a dependency. *)
Definition method_f_of_A : CppMethod := member_method "A" "f" Regular true Public.

Definition data_dependency_base : CppData :=
  mkCppData [class_decl "B" [class_type_of "A"]] []
    [mkCppData [class_decl "A" []] [method_f_of_A] []].

(** The same two classes, both declared at the top level. *)
Definition data_top_level_base : CppData :=
  mkCppData [class_decl "B" [class_type_of "A"]; class_decl "A" []] [method_f_of_A] [].

(** Overriding: [A] declares [g] and [h], [B] derives [A] and declares [g]
    with the same (empty) argument list. *)
Definition method_g_of_A : CppMethod := member_method "A" "g" Regular false Public.
Definition method_h_of_A : CppMethod := member_method "A" "h" Regular false Public.
Definition method_g_of_B : CppMethod := member_method "B" "g" Regular false Public.

Definition data_override : CppData :=
  mkCppData [class_decl "A" []; class_decl "B" [class_type_of "A"]]
    [method_g_of_A; method_h_of_A; method_g_of_B] [].

(** Abstract classes: [A] has a pure virtual [f] and a constructor; [B]
    derives [A], overrides [f] with a non-pure method and has a constructor. *)
Definition ctor_of_A : CppMethod := member_method "A" "A" Constructor false Public.
Definition ctor_of_B : CppMethod := member_method "B" "B" Constructor false Public.
Definition method_f_of_B : CppMethod := member_method "B" "f" Regular false Public.

Definition data_abstract : CppData :=
  mkCppData [class_decl "A" []; class_decl "B" [class_type_of "A"]]
    [ctor_of_A; method_f_of_A; ctor_of_B; method_f_of_B] [].

Definition generator_abstract : CGenerator := {|
  cpp_data := data_abstract; template_classes := []; abstract_classes := ["A"] |}.

(** Free functions with named arguments. *)
Definition sample_argument (n : string) : CppFunctionArgument := {|
  arg_name := n; argument_type := void_type; has_default_value := false |}.

Definition free_function (n : string) (args : list string) : CppMethod := {|
  name := n; class_membership := None; return_type := void_type;
  arguments := map sample_argument args; allows_variadic_arguments := false;
  include_file := "a.h"; template_arguments := None |}.

Definition generator_empty : CGenerator := {|
  cpp_data := mkCppData [] [] []; template_classes := []; abstract_classes := [] |}.

(** Sample FFI layer: one signature per method, the method itself; its base
    name is [Class_method] (or the function name); strategy [0] gives the
    empty caption, strategy [1] the name of the first argument. *)
Definition sample_to_ffi_signatures (m : CppMethod) : string + list CppMethod := inr [m].

Definition sample_c_base_name (m : CppMethod) (_ : string) : string + string :=
  match class_name m with
  | Some c => inr (c +:+ "_" +:+ name m)
  | None => inr (name m)
  end.

Definition first_arg_name (m : CppMethod) : string :=
  match arguments m with [] => "" | a :: _ => arg_name a end.

Definition sample_strategies : list nat := [0; 1].

Definition sample_caption (m : CppMethod) (strategy : nat) : string :=
  match strategy with 0 => "" | _ => first_arg_name m end.

(** Two admissible iteration orders of a [HashMap]. *)
Definition iter_forward {V} (h : gmap string V) : list (string * V) := map_to_list h.
Definition iter_reverse {V} (h : gmap string V) : list (string * V) := rev (map_to_list h).

(** [f_a()] and the overloads [f(a)], [f(b)]: the group [f] is disambiguated
    into [f_a] and [f_b], and [f_a] is also the name of the single [f_a()]. *)
Definition method_f_a : CppMethod := free_function "f_a" [].
Definition method_f_arg_a : CppMethod := free_function "f" ["a"].
Definition method_f_arg_b : CppMethod := free_function "f" ["b"].

Definition colliding_methods : list CppMethod := [method_f_a; method_f_arg_a; method_f_arg_b].

(** [f()] and [f(a)]: an empty and a non-empty caption under strategy [1]. *)
Definition method_f_no_arg : CppMethod := free_function "f" [].

Definition distinct_methods : list CppMethod := [method_f_no_arg; method_f_arg_a; method_f_arg_b].

(** A private and a public method of [A]. *)
Definition method_p_private : CppMethod := member_method "A" "p" Regular false Private.
Definition method_q_public : CppMethod := member_method "A" "q" Regular false Public.

(** Build configurations over boolean conditions. *)
Definition bool_condition_eval (c : bool) (_ : unit) : bool := c.

Definition config_data (libs : list string) (t : option CppLibraryType) : CppBuildConfigData := {|
  linked_libs := libs; linked_frameworks := []; compiler_flags := ["-O2"];
  library_type := t |}.

Definition config_agreeing : CppBuildConfig bool := {| items := [
  {| condition := true; data := config_data ["a"] (Some Shared) |};
  {| condition := false; data := config_data ["x"] (Some Static) |};
  {| condition := true; data := config_data ["b"] None |}] |}.

Definition config_conflicting : CppBuildConfig bool := {| items := [
  {| condition := true; data := config_data ["a"] (Some Shared) |};
  {| condition := true; data := config_data ["b"] (Some Static) |}] |}.

(** A class [S] listed as its own base. *)
Definition data_self_derived : CppData :=
  mkCppData [class_decl "S" [class_type_of "S"]] [member_method "S" "s" Regular false Public] [].

(** A constructor whose class type is not a named type. *)
Definition unnamed_ctor_membership : CppMethodClassMembership := {|
  class_type := Void; method_kind := Constructor; is_virtual := false;
  is_pure_virtual := false; is_const_method := false; is_static := false;
  visibility := Public; is_signal := false; is_slot := false |}.

Definition ctor_unnamed : CppMethod := {|
  name := "C"; class_membership := Some unnamed_ctor_membership; return_type := void_type;
  arguments := []; allows_variadic_arguments := false; include_file := "a.h";
  template_arguments := None |}.

(** Methods the filters drop: a protected method, a signal, a template
    method and a method of the template class [T]; with the private [A::p]
    and the public [A::q]. *)
Definition method_r_protected : CppMethod := member_method "A" "r" Regular false Protected.

Definition signal_membership : CppMethodClassMembership := {|
  class_type := Class "A" None; method_kind := Regular; is_virtual := false;
  is_pure_virtual := false; is_const_method := false; is_static := false;
  visibility := Public; is_signal := true; is_slot := false |}.

Definition method_s_signal : CppMethod := {|
  name := "s"; class_membership := Some signal_membership; return_type := void_type;
  arguments := []; allows_variadic_arguments := false; include_file := "a.h";
  template_arguments := None |}.

Definition method_t_template : CppMethod := {|
  name := "t"; class_membership := None; return_type := void_type;
  arguments := []; allows_variadic_arguments := false; include_file := "a.h";
  template_arguments := Some ["T"] |}.

Definition method_u_of_T : CppMethod := member_method "T" "u" Regular false Public.

Definition filter_methods : list CppMethod :=
  [method_p_private; method_q_public; method_r_protected; method_s_signal;
   method_t_template; method_u_of_T].

Definition generator_template : CGenerator := {|
  cpp_data := mkCppData [] [] []; template_classes := ["T"]; abstract_classes := [] |}.

(** Headers: [a.h] with the abstract-class sample, [b.h] with [f()], [f(a)]
    and [f(b)], and a [QFlags] entry. *)
Definition sample_headers : gmap string CppData :=
  <["b.h" := mkCppData [] distinct_methods []]>
    (<["QFlags" := mkCppData [] [method_q_public] []]> {["a.h" := data_abstract]}).

Definition header_a : CppFfiHeaderData CppMethod := {|
  ffi_include_file := "a.h"; ffi_include_file_base_name := "a";
  ffi_methods := [(method_f_of_A, "A_f"); (ctor_of_B, "B_B"); (method_f_of_B, "B_f")] |}.

Definition header_b : CppFfiHeaderData CppMethod := {|
  ffi_include_file := "b.h"; ffi_include_file_base_name := "b";
  ffi_methods := [(method_f_no_arg, "f"); (method_f_arg_a, "f_a"); (method_f_arg_b, "f_b")] |}.

(** Headers one of which holds the constructor without a class name. *)
Definition panicking_headers : gmap string CppData :=
  <["b.h" := mkCppData [] distinct_methods []]>
    {["a.h" := mkCppData [] [method_q_public; ctor_unnamed] []]}.

(** The abstract-class sample before [generate_all] fills in the abstract
    classes, split into the single header [a.h]. *)
Definition generator_unset : CGenerator := {|
  cpp_data := data_abstract; template_classes := []; abstract_classes := [] |}.

Definition split_single_header (d : CppData) : gmap string CppData := {["a.h" := d]}.

End Samples.

(* ================================================================== *)
(** * Proofs *)

Lemma obind_Ok {A B} (c : outcome A) (f : A -> outcome B) (b : B) :
  obind c f = Ok b -> exists a, c = Ok a /\ f a = Ok b.
Proof. destruct c; simpl; intros H; [eauto | discriminate | discriminate]. Qed.

Section SortBy.

Context {A : Type} (R : relation A) `{!RelDecision R}.

Lemma insert_sorted_Permutation x l : insert_sorted R x l ≡ₚ x :: l.
Proof.
  induction l as [|y l IH]; simpl; [done|].
  case_decide; [done|]. rewrite IH. apply perm_swap.
Qed.

Lemma sort_by_Permutation l : sort_by R l ≡ₚ l.
Proof.
  induction l as [|x l IH]; simpl; [done|].
  rewrite insert_sorted_Permutation, IH. done.
Qed.

Context `{!Total R}.

Lemma insert_sorted_HdRel y x l :
  R y x -> HdRel R y l -> HdRel R y (insert_sorted R x l).
Proof.
  intros Hyx Hl. destruct l as [|z l]; simpl; [by constructor|].
  case_decide; constructor; [done|]. by inversion Hl.
Qed.

Lemma insert_sorted_Sorted x l : Sorted R l -> Sorted R (insert_sorted R x l).
Proof.
  induction l as [|y l IH]; intros Hl; simpl; [by repeat constructor|].
  inversion Hl as [|? ? Hl' Hhd]; subst.
  case_decide as Hxy; [by constructor; [|constructor]|].
  constructor; [by apply IH|].
  apply insert_sorted_HdRel; [|done].
  destruct (total R x y); [contradiction|done].
Qed.

Lemma sort_by_Sorted l : Sorted R (sort_by R l).
Proof.
  induction l as [|x l IH]; simpl; [constructor|]. by apply insert_sorted_Sorted.
Qed.

End SortBy.

Section ResolverProofs.

Variable argument_types_equal : CppMethod -> CppMethod -> bool.
Variable cpp_data : CppData.

Lemma inherit_from_bases_kept resolve own bases acc r :
  inherit_from_bases argument_types_equal resolve own bases acc = Ok r ->
  forall x, In x r -> In x acc \/ shadowed argument_types_equal own x = false.
Proof.
  revert acc. induction bases as [|b bs IH]; intros acc H x Hx; simpl in H.
  - injection H as <-. auto.
  - destruct (base b); try solve [eapply IH; eauto].
    apply obind_Ok in H as (ms & _ & H).
    destruct (IH _ H x Hx) as [Hin | Hsh]; [|auto].
    apply in_app_or in Hin as [Hin | Hin]; [left; exact Hin|].
    apply filter_In in Hin as [_ Hn]. right. by apply negb_true_iff.
Qed.

Lemma inherit_from_bases_ext r1 r2 own bases acc :
  (forall n, r1 n = r2 n) ->
  inherit_from_bases argument_types_equal r1 own bases acc =
  inherit_from_bases argument_types_equal r2 own bases acc.
Proof.
  intros Hr. revert acc. induction bases as [|b bs IH]; intros acc; simpl; [done|].
  destruct (base b); try apply IH.
  rewrite Hr. destruct (r2 name0); simpl; auto.
Qed.

Lemma inherit_from_bases_skip_nonclass resolve own b bs acc :
  (forall n targs, base b <> Class n targs) ->
  inherit_from_bases argument_types_equal resolve own (b :: bs) acc =
  inherit_from_bases argument_types_equal resolve own bs acc.
Proof.
  intros Hb. simpl. destruct (base b) eqn:E; try done. exfalso; eapply Hb; eauto.
Qed.

Lemma inherit_from_bases_all_nonclass resolve own bases acc :
  Forall (fun b => forall n targs, base b <> Class n targs) bases ->
  inherit_from_bases argument_types_equal resolve own bases acc = Ok acc.
Proof.
  intros HF. revert acc. induction HF as [|b bs Hb _ IH]; intros acc; [done|].
  rewrite inherit_from_bases_skip_nonclass by exact Hb. apply IH.
Qed.

Lemma resolve_step_Ok resolve msg n pushed r :
  resolve_step argument_types_equal cpp_data resolve msg n pushed = Ok r ->
  exists inherited, r = inherited ++ pushed /\
    forall x, In x inherited ->
      shadowed argument_types_equal (own_methods cpp_data n) x = false.
Proof.
  unfold resolve_step. intros H. apply obind_Ok in H as (inh & Hinh & Hr).
  injection Hr as <-. exists inh. split; [done|]. intros x Hx.
  destruct (find_type_info cpp_data n) as [t|]; [|injection Hinh as <-; done].
  destruct (kind t) as [|bases]; [discriminate|].
  destruct (inherit_from_bases_kept _ _ _ _ _ Hinh x Hx) as [[]|]; done.
Qed.

End ResolverProofs.

Lemma collect_abstract_classes_spec argument_types_equal cpp_data fuel ts ac :
  collect_abstract_classes argument_types_equal cpp_data fuel ts = Ok ac ->
  forall n, In n ac <->
    exists t bases pv, In t ts /\ kind t = ClassKind bases /\ type_name t = n /\
      get_pure_virtual_methods argument_types_equal cpp_data fuel n = Ok pv /\ pv <> [].
Proof.
  revert ac. induction ts as [|t ts IH]; intros ac H n; simpl in H.
  - injection H as <-. split; [intros []|]. intros (? & ? & ? & [] & _).
  - destruct (kind t) as [vals|bases] eqn:Hk.
    + rewrite (IH ac H n). split.
      * intros (t' & bs & pv & Hin & Hrest). exists t', bs, pv. split; [right|]; done.
      * intros (t' & bs & pv & [<-|Hin] & Hk' & Hrest); [congruence|].
        exists t', bs, pv. done.
    + apply obind_Ok in H as (pv & Hpv & H). apply obind_Ok in H as (rest & Hrest & H).
      injection H as <-. specialize (IH rest Hrest n). split.
      * intros Hn. destruct (0 <? length pv) eqn:Hlen.
        -- destruct Hn as [<-|Hn].
           ++ exists t, bases, pv. repeat split; try done; [left; done|].
              intros ->. simpl in Hlen. discriminate.
           ++ apply IH in Hn as (t' & bs & pv' & Hin & Hr).
              exists t', bs, pv'. split; [right|]; done.
        -- apply IH in Hn as (t' & bs & pv' & Hin & Hr).
           exists t', bs, pv'. split; [right|]; done.
      * intros (t' & bs & pv' & [<-|Hin] & Hk' & Hname & Hpv' & Hne).
        -- subst n. rewrite Hpv in Hpv'. injection Hpv' as <-.
           assert (Hlen : (0 <? length pv) = true).
           { apply Nat.ltb_lt. destruct pv; [done|simpl; lia]. }
           rewrite Hlen. by left.
        -- assert (In n rest) by (apply IH; exists t', bs, pv'; done).
           destruct (0 <? length pv); [right|]; done.
Qed.

Section ResolverClaims.

Variable argument_types_equal : CppMethod -> CppMethod -> bool.

(** C5: when [B] declares exactly one method [mB] with a given name and
    argument types, resolving [B]'s method set yields exactly that one
    method of this name and argument types, the one attributed to [B]:
    the inherited copies are suppressed and [B]'s own methods come last. *)
Theorem get_all_methods_override_single (cpp_data : CppData) (fuel : nat)
    (B : string) (mB : CppMethod) (ms : list CppMethod) :
  List.filter (fun x => String.eqb (name x) (name mB) && argument_types_equal mB x)
    (own_methods cpp_data B) = [mB] ->
  get_all_methods argument_types_equal cpp_data (S fuel) B = Ok ms ->
  List.filter (fun x => String.eqb (name x) (name mB) && argument_types_equal mB x) ms = [mB] /\
  class_name mB = Some B /\
  exists inherited, ms = inherited ++ own_methods cpp_data B.
Proof.
  intros Hown Hms. cbn [get_all_methods] in Hms.
  apply resolve_step_Ok in Hms as (inh & -> & Hinh).
  assert (HmB : In mB (own_methods cpp_data B)).
  { assert (In mB [mB]) as Hin by (left; done). rewrite <- Hown in Hin.
    apply filter_In in Hin as [Hin _]. exact Hin. }
  split; [|split].
  - rewrite List.filter_app, Hown.
    enough (List.filter (fun x => String.eqb (name x) (name mB) && argument_types_equal mB x) inh = [])
      as -> by done.
    induction inh as [|x inh IH]; [done|]. simpl.
    destruct (String.eqb (name x) (name mB) && argument_types_equal mB x) eqn:Hx.
    + exfalso. apply andb_prop in Hx as [Hn Ha].
      assert (Hsh : shadowed argument_types_equal (own_methods cpp_data B) x = true).
      { apply existsb_exists. exists mB. split; [done|].
        apply String.eqb_eq in Hn. rewrite Hn, String.eqb_refl, Ha. done. }
      rewrite (Hinh x (or_introl eq_refl)) in Hsh. discriminate.
    + apply IH. intros y Hy. apply Hinh. right. done.
  - unfold own_methods in HmB. apply filter_In in HmB as [_ Hc].
    destruct (class_name mB) as [c|]; [|discriminate].
    apply String.eqb_eq in Hc. subst c. done.
  - exists inh. done.
Qed.

End ResolverClaims.

Section ResolverClaims2.

Variable argument_types_equal : CppMethod -> CppMethod -> bool.

Lemma inherit_from_bases_filter_class resolve own bases acc :
  inherit_from_bases argument_types_equal resolve own bases acc =
  inherit_from_bases argument_types_equal resolve own (List.filter is_class_base bases) acc.
Proof.
  revert acc. induction bases as [|b bs IH]; intros acc; [done|].
  unfold is_class_base at 1. simpl. destruct (base b) eqn:Hb; try apply IH.
  simpl. rewrite Hb. destruct (resolve name0); simpl; auto.
Qed.

(** C2 (corrected): a base whose type is not a class type is skipped: the
    resolution of a class is the one of the same class with its non-class
    bases removed, and a class all of whose bases are non-class resolves,
    without aborting, to its own methods (resp. own pure virtual methods). *)
Theorem nonclass_base_skipped (cpp_data : CppData) (fuel : nat) (n : string)
    (t : CppTypeData) (bases : list CppType) :
  (forall resolve own acc,
     inherit_from_bases argument_types_equal resolve own bases acc =
     inherit_from_bases argument_types_equal resolve own
       (List.filter is_class_base bases) acc) /\
  (find_type_info cpp_data n = Some t ->
   kind t = ClassKind bases ->
   Forall (fun b => is_class_base b = false) bases ->
   get_all_methods argument_types_equal cpp_data (S fuel) n = Ok (own_methods cpp_data n) /\
   get_pure_virtual_methods argument_types_equal cpp_data (S fuel) n =
     Ok (own_pure_virtual_methods cpp_data n)).
Proof.
  split; [intros; apply inherit_from_bases_filter_class|].
  intros Ht Hk HF.
  assert (Hinh : forall resolve own,
            inherit_from_bases argument_types_equal resolve own bases [] = Ok []).
  { intros resolve own. apply inherit_from_bases_all_nonclass.
    eapply Forall_impl; [exact HF|]. intros b Hb nm targs Heq.
    unfold is_class_base in Hb. rewrite Heq in Hb. discriminate. }
  cbn [get_all_methods get_pure_virtual_methods]. unfold resolve_step.
  rewrite Ht, Hk, !Hinh. done.
Qed.

Lemma get_all_methods_dependencies ts ms deps fuel n :
  get_all_methods argument_types_equal (mkCppData ts ms deps) fuel n =
  get_all_methods argument_types_equal (mkCppData ts ms []) fuel n.
Proof.
  revert n. induction fuel as [|f IH]; intros n; [done|].
  cbn [get_all_methods]. unfold resolve_step, find_type_info, own_methods.
  cbn [types methods].
  destruct (List.find _ ts) as [t|]; [|done]. destruct (kind t); [done|].
  rewrite (inherit_from_bases_ext _ _ _ _ _ _ IH). done.
Qed.

Lemma get_pure_virtual_methods_dependencies ts ms deps fuel n :
  get_pure_virtual_methods argument_types_equal (mkCppData ts ms deps) fuel n =
  get_pure_virtual_methods argument_types_equal (mkCppData ts ms []) fuel n.
Proof.
  revert n. induction fuel as [|f IH]; intros n; [done|].
  cbn [get_pure_virtual_methods].
  unfold resolve_step, find_type_info, own_pure_virtual_methods, own_methods.
  cbn [types methods].
  destruct (List.find _ ts) as [t|]; [|done]. destruct (kind t); [done|].
  rewrite (inherit_from_bases_ext _ _ _ _ _ _ IH). done.
Qed.

(** C6 (corrected): the resolver reads only the top-level [types] and
    [methods] of [CppData], never its [dependencies]: its results do not
    change when the dependencies are dropped, and a class name without a
    type record among the top-level types (for instance a base declared
    only in a dependency) resolves to the top-level methods attributed to
    that name, with no inherited method. *)
Theorem resolver_ignores_dependencies (ts : list CppTypeData) (ms : list CppMethod)
    (deps : list CppData) (fuel : nat) (n : string) :
  get_all_methods argument_types_equal (mkCppData ts ms deps) fuel n =
    get_all_methods argument_types_equal (mkCppData ts ms []) fuel n /\
  get_pure_virtual_methods argument_types_equal (mkCppData ts ms deps) fuel n =
    get_pure_virtual_methods argument_types_equal (mkCppData ts ms []) fuel n /\
  (find_type_info (mkCppData ts ms deps) n = None ->
   get_all_methods argument_types_equal (mkCppData ts ms deps) (S fuel) n =
     Ok (own_methods (mkCppData ts ms deps) n) /\
   get_pure_virtual_methods argument_types_equal (mkCppData ts ms deps) (S fuel) n =
     Ok (own_pure_virtual_methods (mkCppData ts ms deps) n)).
Proof.
  split; [apply get_all_methods_dependencies|].
  split; [apply get_pure_virtual_methods_dependencies|].
  intros Hn. cbn [get_all_methods get_pure_virtual_methods]. unfold resolve_step.
  rewrite Hn. done.
Qed.

End ResolverClaims2.

(** ** Sorting and deduplication of captions *)

Lemma dedup_cons x l :
  dedup (x :: l) =
  match l with
  | [] => [x]
  | y :: _ => if String.eqb x y then dedup l else x :: dedup l
  end.
Proof. destruct l; reflexivity. Qed.

Lemma dedup_length_le l : length (dedup l) <= length l.
Proof.
  induction l as [|x l IH]; [done|]. rewrite dedup_cons.
  destruct l as [|y l']; [done|].
  destruct (String.eqb x y); simpl in *; lia.
Qed.

Lemma dedup_NoDup_id l : List.NoDup l -> dedup l = l.
Proof.
  induction l as [|x l IH]; intros Hnd; [done|]. rewrite dedup_cons.
  apply List.NoDup_cons_iff in Hnd as [Hx Hnd].
  destruct l as [|y l']; [done|].
  destruct (String.eqb x y) eqn:Hxy.
  - apply String.eqb_eq in Hxy. subst y. exfalso. apply Hx. by left.
  - rewrite IH by done. done.
Qed.

Lemma dedup_sorted_length l :
  StronglySorted String.le l -> length (dedup l) = length l -> List.NoDup l.
Proof.
  induction l as [|x l IH]; intros Hs Hlen; [constructor|].
  apply StronglySorted_inv in Hs as [Hs Hx].
  rewrite dedup_cons in Hlen. destruct l as [|y l'].
  { constructor; [intros []|constructor]. }
  destruct (String.eqb x y) eqn:Hxy.
  - pose proof (dedup_length_le (y :: l')). simpl in *. lia.
  - simpl in Hlen. injection Hlen as Hlen. apply List.NoDup_cons_iff. split; [|by apply IH].
    apply String.eqb_neq in Hxy. intros [->|Hin]; [done|].
    apply StronglySorted_inv in Hs as [_ Hy].
    rewrite List.Forall_forall in Hx, Hy.
    apply Hxy. apply (anti_symm String.le).
    + apply Hx. by left.
    + apply Hy. done.
Qed.

Section ProcessMethodsProofs.

Context {Sig : Type}.
Variable to_ffi_signatures : CppMethod -> string + list Sig.
Variable c_base_name : Sig -> string -> string + string.
Context {Strategy : Type}.
Variable all_strategies : list Strategy.
Variable caption : Sig -> Strategy -> string.

Lemma captions_unique_NoDup values strategy :
  captions_unique caption values strategy = true <->
  List.NoDup (map (fun x => caption x strategy) values).
Proof.
  unfold captions_unique. set (cs := map (fun x => caption x strategy) values).
  assert (Hp : merge_sort String.le cs ≡ₚ cs) by apply merge_sort_Permutation.
  assert (Hl : length values = length cs) by (unfold cs; rewrite length_map; done).
  rewrite Hl, Nat.eqb_eq. split.
  - intros Hlen. eapply Permutation_NoDup; [exact Hp|].
    apply dedup_sorted_length; [apply (StronglySorted_merge_sort String.le)|].
    etransitivity; [exact Hlen|]. symmetry. apply Permutation_length. exact Hp.
  - intros Hnd. rewrite dedup_NoDup_id.
    + apply Permutation_length. exact Hp.
    + eapply Permutation_NoDup; [symmetry; exact Hp|exact Hnd].
Qed.

Lemma find_first {A} (f : A -> bool) pre s post :
  f s = true -> Forall (fun s' => f s' = false) pre ->
  List.find f (pre ++ s :: post) = Some s.
Proof.
  intros Hs HF. induction HF as [|s' pre Hs' _ IH]; simpl; [by rewrite Hs|].
  rewrite Hs'. exact IH.
Qed.

Lemma find_none {A} (f : A -> bool) l :
  Forall (fun s' => f s' = false) l -> List.find f l = None.
Proof. intros HF. induction HF as [|s' l Hs' _ IH]; simpl; [done|]. by rewrite Hs'. Qed.

Lemma process_group_not_single key values :
  length values <> 1 ->
  process_group all_strategies caption key values =
  match List.find (captions_unique caption values) all_strategies with
  | Some strategy => Ok (map (fun x => (x, caption_name caption key x strategy)) values)
  | None => Panic "all type caption strategies have failed!"
  end.
Proof. intros Hl. unfold process_group. destruct values as [|v [|w vs]]; done. Qed.

Lemma process_groups_panic entries key values msg :
  In (key, values) entries ->
  process_group all_strategies caption key values = Panic msg ->
  exists msg', process_groups all_strategies caption entries = Panic msg'.
Proof.
  induction entries as [|[k vs] es IH]; intros Hin Hg; [destruct Hin|].
  simpl. destruct Hin as [Heq|Hin].
  - injection Heq as -> ->. rewrite Hg. simpl. eauto.
  - destruct (process_group all_strategies caption k vs) as [r1| m1 |] eqn:E; simpl; eauto.
    + destruct (IH Hin Hg) as [msg' ->]. simpl. eauto.
    + unfold process_group in E. destruct vs as [|? [|? ?]];
        [destruct (List.find _ _)|discriminate|destruct (List.find _ _)]; discriminate.
Qed.

Lemma append_empty_r (s : string) : s +:+ "" = s.
Proof.
  induction s as [|a s IH]; [done|].
  transitivity (String.String a (s +:+ "")); [reflexivity|]. rewrite IH. reflexivity.
Qed.

End ProcessMethodsProofs.

Section DisambiguationClaims.

Context {Sig Strategy : Type}.
Variable all_strategies : list Strategy.
Variable caption : Sig -> Strategy -> string.

(** C3: a group with a single candidate keeps the base name; otherwise the
    first strategy of [MethodCaptionStrategy::all()] under which the
    captions of all candidates are pairwise distinct is adopted for the
    whole group; if there is none, the group panics, and so does the
    processing of any list of groups that contains it. *)
Theorem process_group_disambiguation (key : string) (values : list Sig) :
  (forall v, values = [v] ->
     process_group all_strategies caption key values = Ok [(v, key)]) /\
  (length values <> 1 ->
   forall pre strategy post,
     all_strategies = pre ++ strategy :: post ->
     List.NoDup (map (fun x => caption x strategy) values) ->
     Forall (fun s => ~ List.NoDup (map (fun x => caption x s) values)) pre ->
     process_group all_strategies caption key values =
       Ok (map (fun x => (x, caption_name caption key x strategy)) values)) /\
  (length values <> 1 ->
   Forall (fun s => ~ List.NoDup (map (fun x => caption x s) values)) all_strategies ->
   process_group all_strategies caption key values =
     Panic "all type caption strategies have failed!" /\
   forall entries, In (key, values) entries ->
     exists msg, process_groups all_strategies caption entries = Panic msg).
Proof.
  assert (Hfalse : forall l, Forall (fun s => ~ List.NoDup (map (fun x => caption x s) values)) l ->
                     Forall (fun s => captions_unique caption values s = false) l).
  { intros l HF. eapply Forall_impl; [exact HF|]. intros s Hs.
    apply not_true_iff_false. rewrite captions_unique_NoDup. exact Hs. }
  split; [|split].
  - intros v ->. reflexivity.
  - intros Hl pre strategy post Hall Hnd Hpre.
    rewrite process_group_not_single by exact Hl. rewrite Hall.
    rewrite (find_first _ pre strategy post); [done| |by apply Hfalse].
    apply captions_unique_NoDup. exact Hnd.
  - intros Hl HF.
    assert (Hg : process_group all_strategies caption key values =
                 Panic "all type caption strategies have failed!").
    { rewrite process_group_not_single by exact Hl. rewrite find_none; [done|by apply Hfalse]. }
    split; [exact Hg|]. intros entries Hin. eapply process_groups_panic; eauto.
Qed.

(** C10: in a group that needs disambiguation, the name of a candidate is
    the base name alone when its caption under the adopted strategy is
    empty, and the base name, an underscore and the caption otherwise. *)
Theorem colliding_group_names (key : string) (values : list Sig)
    (r : list (Sig * string)) :
  length values <> 1 ->
  process_group all_strategies caption key values = Ok r ->
  exists strategy,
    List.find (captions_unique caption values) all_strategies = Some strategy /\
    forall x n, In (x, n) r ->
      (caption x strategy = "" -> n = key) /\
      (caption x strategy <> "" -> n = key +:+ "_" +:+ caption x strategy).
Proof.
  intros Hl Hr. rewrite process_group_not_single in Hr by exact Hl.
  destruct (List.find (captions_unique caption values) all_strategies) as [s|];
    [|discriminate].
  injection Hr as <-. exists s. split; [done|]. intros x n Hin.
  apply in_map_iff in Hin as (x' & Heq & _). injection Heq as <- <-.
  unfold caption_name. split.
  - intros ->. simpl. apply append_empty_r.
  - intros Hne. apply String.eqb_neq in Hne. rewrite Hne. reflexivity.
Qed.

End DisambiguationClaims.

Section Provenance.

Context {Sig : Type}.
Variable to_ffi_signatures : CppMethod -> string + list Sig.
Variable c_base_name : Sig -> string -> string + string.
Context {Strategy : Type}.
Variable all_strategies : list Strategy.
Variable caption : Sig -> Strategy -> string.

Lemma insert_into_hash_lookup (h : gmap string (list Sig)) key v k vs x :
  insert_into_hash h key v !! k = Some vs -> In x vs ->
  (exists vs0, h !! k = Some vs0 /\ In x vs0) \/ x = v.
Proof.
  unfold insert_into_hash. intros Hk Hx.
  destruct (decide (key = k)) as [<-|Hne].
  - destruct (h !! key) as [vs0|] eqn:E; rewrite lookup_insert_eq in Hk;
      injection Hk as <-.
    + apply in_app_or in Hx as [Hx|[<-|[]]]; [left; eauto|right; done].
    + destruct Hx as [<-|[]]. right. done.
  - destruct (h !! key); rewrite lookup_insert_ne in Hk by done; left; eauto.
Qed.

Lemma insert_results_lookup ifbn (h : gmap string (list Sig)) results k vs x :
  insert_results c_base_name ifbn h results !! k = Some vs -> In x vs ->
  (exists vs0, h !! k = Some vs0 /\ In x vs0) \/ In x results.
Proof.
  unfold insert_results. revert h.
  induction results as [|r rs IH]; intros h Hk Hx; simpl in Hk; [left; eauto|].
  destruct (IH _ Hk Hx) as [(vs0 & Hvs0 & Hin)|Hin]; [|right; right; done].
  destruct (c_base_name r ifbn) as [_|nm]; [left; eauto|].
  destruct (insert_into_hash_lookup _ _ _ _ _ _ Hvs0 Hin) as [?|<-]; [left; done|].
  right. by left.
Qed.

Lemma collect_candidates_lookup g ifbn ms (hash hash' : gmap string (list Sig)) :
  collect_candidates to_ffi_signatures c_base_name g ifbn ms hash = Ok hash' ->
  forall k vs x, hash' !! k = Some vs -> In x vs ->
    (exists vs0, hash !! k = Some vs0 /\ In x vs0) \/
    exists m rs, In m ms /\ skip_method g m = Ok false /\
      to_ffi_signatures m = inr rs /\ In x rs.
Proof.
  revert hash. induction ms as [|m ms IH]; intros hash H k vs x Hk Hx; simpl in H.
  - injection H as ->. left. eauto.
  - apply obind_Ok in H as (skipped & Hskip & H).
    destruct skipped.
    + destruct (IH _ H k vs x Hk Hx) as [?|(m' & rs & ? & ?)]; [left; done|].
      right. exists m', rs. split; [right|]; done.
    + destruct (to_ffi_signatures m) as [msg|results] eqn:Hsig.
      * destruct (IH _ H k vs x Hk Hx) as [?|(m' & rs & ? & ?)]; [left; done|].
        right. exists m', rs. split; [right|]; done.
      * destruct (IH _ H k vs x Hk Hx) as [(vs0 & Hvs0 & Hin)|(m' & rs & ? & ?)].
        -- destruct (insert_results_lookup _ _ _ _ _ _ Hvs0 Hin) as [?|Hin'];
             [left; done|].
           right. exists m, results. split; [by left|]. done.
        -- right. exists m', rs. split; [right|]; done.
Qed.

Lemma process_group_members key values r :
  process_group all_strategies caption key values = Ok r ->
  forall e, In e r -> In (fst e) values.
Proof.
  unfold process_group. intros H e He.
  destruct values as [|v [|w vs]].
  - destruct (List.find _ _); [|discriminate]. injection H as <-. destruct He.
  - injection H as <-. destruct He as [<-|[]]. by left.
  - destruct (List.find _ _); [|discriminate]. injection H as <-.
    change (In e (map (fun x => (x, caption_name caption key x s)) (v :: w :: vs))) in He.
    apply in_map_iff in He as (x & <- & Hx). exact Hx.
Qed.

Lemma process_groups_members entries r :
  process_groups all_strategies caption entries = Ok r ->
  forall e, In e r -> exists k vs, In (k, vs) entries /\ In (fst e) vs.
Proof.
  revert r. induction entries as [|[k vs] es IH]; intros r H e He; simpl in H.
  - injection H as <-. destruct He.
  - apply obind_Ok in H as (r1 & H1 & H). apply obind_Ok in H as (r2 & H2 & H).
    injection H as <-. apply in_app_or in He as [He|He].
    + exists k, vs. split; [by left|]. eapply process_group_members; eauto.
    + destruct (IH _ H2 e He) as (k' & vs' & ? & ?). exists k', vs'. split; [right|]; done.
Qed.

Lemma process_methods_provenance hash_iter g ifbn ms out :
  hash_iteration_order hash_iter ->
  process_methods to_ffi_signatures c_base_name all_strategies caption hash_iter g ifbn ms
    = Ok out ->
  forall e, In e out ->
    exists m rs, In m ms /\ skip_method g m = Ok false /\
      to_ffi_signatures m = inr rs /\ In (fst e) rs.
Proof.
  intros Horder H e He. unfold process_methods in H.
  apply obind_Ok in H as (hash1 & Hhash & H). apply obind_Ok in H as (r & Hr & H).
  injection H as <-.
  assert (Her : In e r).
  { eapply Permutation_in; [apply (sort_by_Permutation c_name_le)|exact He]. }
  destruct (process_groups_members _ _ Hr e Her) as (k & vs & Hin & Hx).
  assert (Hk : hash1 !! k = Some vs).
  { apply elem_of_map_to_list. apply list_elem_of_In.
    eapply Permutation_in; [apply Horder|exact Hin]. }
  destruct (collect_candidates_lookup _ _ _ _ _ Hhash k vs (fst e) Hk Hx)
    as [(vs0 & Hvs0 & _)|?]; [|done].
  rewrite lookup_empty in Hvs0. discriminate.
Qed.

End Provenance.

Lemma skip_method_false g m mem :
  skip_method g m = Ok false -> class_membership m = Some mem ->
  visibility mem <> Private /\
  (is_constructor (method_kind mem) = true ->
   forall n, maybe_name (class_type mem) = Some n -> ~ In n (abstract_classes g)).
Proof.
  unfold skip_method, skip_for_membership. intros H Hm. rewrite Hm in H.
  destruct (is_constructor (method_kind mem)) eqn:Hc.
  - destruct (maybe_name (class_type mem)) as [n|] eqn:Hn; [|discriminate].
    destruct (existsb (String.eqb n) (abstract_classes g)) eqn:He; [discriminate|].
    destruct (visibility mem); simpl in H; try discriminate.
    all: split; [done|]; intros _ n' Hn'; injection Hn' as <-; intros Hin;
      apply not_true_iff_false in He; apply He; apply existsb_exists;
      exists n; split; [done|apply String.eqb_refl].
  - destruct (visibility mem); simpl in H; try discriminate; split; done.
Qed.

Section FilterClaims.

Context {Sig : Type}.
Variable to_ffi_signatures : CppMethod -> string + list Sig.
Variable c_base_name : Sig -> string -> string + string.
Context {Strategy : Type}.
Variable all_strategies : list Strategy.
Variable caption : Sig -> Strategy -> string.

(** C7: a private method is always skipped (whatever its other
    properties), so every method of a header's output comes from a
    signature of a method that is not private. *)
Theorem private_methods_never_emitted hash_iter (g : CGenerator) (ifbn : string)
    (ms : list CppMethod) (out : list (Sig * string)) :
  (forall m mem, class_membership m = Some mem -> visibility mem = Private ->
     skip_method g m <> Ok false) /\
  (hash_iteration_order hash_iter ->
   process_methods to_ffi_signatures c_base_name all_strategies caption hash_iter g ifbn ms
     = Ok out ->
   forall e, In e out ->
     exists m rs, In m ms /\ to_ffi_signatures m = inr rs /\ In (fst e) rs /\
       forall mem, class_membership m = Some mem -> visibility mem <> Private).
Proof.
  split.
  - intros m mem Hm Hp Hs. exact (proj1 (skip_method_false _ _ _ Hs Hm) Hp).
  - intros Horder Hout e He.
    destruct (process_methods_provenance _ _ _ _ _ _ _ _ _ Horder Hout e He)
      as (m & rs & Hin & Hskip & Hsig & Hx).
    exists m, rs. repeat split; try done.
    intros mem Hm. exact (proj1 (skip_method_false _ _ _ Hskip Hm)).
Qed.

(** C1: the abstract classes computed by [generate_all] are exactly the
    class types of [cpp_data.types] whose transitive pure virtual method
    list is non-empty, and no constructor of such a class contributes to a
    header's output. *)
Theorem abstract_classes_constructors_dropped
    (argument_types_equal : CppMethod -> CppMethod -> bool) (fuel : nat) hash_iter
    (g : CGenerator) (ifbn : string) (ms : list CppMethod) (out : list (Sig * string)) :
  generate_abstract_classes argument_types_equal (cpp_data g) fuel = Ok (abstract_classes g) ->
  (forall n, In n (abstract_classes g) <->
     exists t bases pv, In t (types (cpp_data g)) /\ kind t = ClassKind bases /\
       type_name t = n /\
       get_pure_virtual_methods argument_types_equal (cpp_data g) fuel n = Ok pv /\
       pv <> []) /\
  (hash_iteration_order hash_iter ->
   process_methods to_ffi_signatures c_base_name all_strategies caption hash_iter g ifbn ms
     = Ok out ->
   forall e, In e out ->
     exists m rs, In m ms /\ to_ffi_signatures m = inr rs /\ In (fst e) rs /\
       forall mem, class_membership m = Some mem -> is_constructor (method_kind mem) = true ->
         forall n, maybe_name (class_type mem) = Some n -> ~ In n (abstract_classes g)).
Proof.
  intros Hac. split.
  - apply collect_abstract_classes_spec. exact Hac.
  - intros Horder Hout e He.
    destruct (process_methods_provenance _ _ _ _ _ _ _ _ _ Horder Hout e He)
      as (m & rs & Hin & Hskip & Hsig & Hx).
    exists m, rs. repeat split; try done.
    intros mem Hm. exact (proj2 (skip_method_false _ _ _ Hskip Hm)).
Qed.

End FilterClaims.

(** ** Independence from the iteration order of [hash1] *)

#[local] Instance c_name_le_trans {Sig} : Transitive (@c_name_le Sig).
Proof. intros a b c. unfold c_name_le. apply transitivity. Qed.

#[local] Instance c_name_le_total {Sig} : Total (@c_name_le Sig).
Proof. intros a b. unfold c_name_le. apply total, _. Qed.


Section OrderIndependence.

Context {Sig : Type}.
Variable to_ffi_signatures : CppMethod -> string + list Sig.
Variable c_base_name : Sig -> string -> string + string.
Context {Strategy : Type}.
Variable all_strategies : list Strategy.
Variable caption : Sig -> Strategy -> string.

Definition group_result (kv : string * list Sig) : list (Sig * string) :=
  match process_group all_strategies caption kv.1 kv.2 with Ok r => r | _ => [] end.

Lemma group_result_Ok key values r :
  process_group all_strategies caption key values = Ok r -> group_result (key, values) = r.
Proof. intros Hr. unfold group_result. cbn [fst snd]. rewrite Hr. done. Qed.

Lemma process_group_cases key values :
  (exists r, process_group all_strategies caption key values = Ok r) \/
  process_group all_strategies caption key values =
    Panic "all type caption strategies have failed!".
Proof.
  unfold process_group. destruct values as [|v [|w vs]]; eauto;
    destruct (List.find _ _); eauto.
Qed.



Lemma process_groups_cases entries :
  process_groups all_strategies caption entries = Ok (flat_map group_result entries) \/
  process_groups all_strategies caption entries =
    Panic "all type caption strategies have failed!".
Proof.
  induction entries as [|[k vs] es IH]; [left; done|]. cbn [process_groups].
  destruct (process_group_cases k vs) as [[r Hr]|Hp]; rewrite ?Hr, ?Hp; cbn [obind];
    [|by right].
  destruct IH as [-> | ->]; cbn [obind flat_map]; [left|by right].
  rewrite (group_result_Ok _ _ _ Hr). done.
Qed.



End OrderIndependence.

(** ** Build configuration merge *)

Lemma library_type_eqb_eq a b : library_type_eqb a b = true <-> a = b.
Proof. destruct a, b; simpl; split; congruence. Qed.

Section BuildConfigProofs.

Context {Condition Target : Type}.
Variable condition_eval : Condition -> Target -> bool.
Variable target : Target.

Definition matching (its : list (CppBuildConfigItem Condition)) :=
  List.filter (fun it => condition_eval (condition it) target) its.

Definition type_settings (acc : CppBuildConfigData) its : list (option CppLibraryType) :=
  library_type acc :: map (fun it => library_type (data it)) (matching its).

Lemma add_from_inr acc other d :
  add_from acc other = inr d ->
  linked_libs d = linked_libs acc ++ linked_libs other /\
  linked_frameworks d = linked_frameworks acc ++ linked_frameworks other /\
  compiler_flags d = compiler_flags acc ++ compiler_flags other /\
  library_type d = match library_type acc with Some t => Some t | None => library_type other end /\
  (forall t t', library_type acc = Some t -> library_type other = Some t' -> t' = t).
Proof.
  unfold add_from. intros H.
  destruct (library_type acc) as [t|] eqn:Ha.
  - destruct (library_type other) as [t'|] eqn:Ho.
    + destruct (library_type_eqb t' t) eqn:E; [|discriminate]. injection H as <-.
      apply library_type_eqb_eq in E. simpl. repeat split; try done; intros; congruence.
    + injection H as <-. simpl. repeat split; try done; intros; congruence.
  - injection H as <-. simpl. repeat split; try done; intros; congruence.
Qed.

Lemma eval_items_inr its acc d :
  eval_items condition_eval target its acc = inr d ->
  linked_libs d = linked_libs acc ++ flat_map (fun it => linked_libs (data it)) (matching its) /\
  linked_frameworks d =
    linked_frameworks acc ++ flat_map (fun it => linked_frameworks (data it)) (matching its) /\
  compiler_flags d =
    compiler_flags acc ++ flat_map (fun it => compiler_flags (data it)) (matching its) /\
  (forall t, In (Some t) (type_settings acc its) -> library_type d = Some t) /\
  (library_type d = None -> forall o, In o (type_settings acc its) -> o = None) /\
  (forall t, library_type d = Some t -> In (Some t) (type_settings acc its)).
Proof.
  unfold type_settings, matching.
  revert acc. induction its as [|it its IH]; intros acc H; simpl in H.
  - injection H as <-. simpl. rewrite !app_nil_r. repeat split; try done.
    + intros t [Ht|[]]. done.
    + intros Hn o [<-|[]]. done.
    + intros t Ht. by left.
  - simpl. destruct (condition_eval (condition it) target) eqn:Hc.
    + destruct (add_from acc (data it)) as [e|d'] eqn:Hadd; [discriminate|].
      destruct (add_from_inr _ _ _ Hadd) as (Hl & Hf & Hfl & Ht & Hagree).
      destruct (IH _ H) as (Hl' & Hf' & Hfl' & Hsome & Hnone & Hfrom).
      simpl. rewrite Hl', Hf', Hfl', Hl, Hf, Hfl, <- !app_assoc.
      repeat split; try done.
      * intros t [Hacc|[Hit|Hrest]].
        -- apply Hsome. left. rewrite Ht, Hacc. done.
        -- apply Hsome. left. rewrite Ht.
           destruct (library_type acc) as [t0|]; [|done].
           rewrite (Hagree t0 t eq_refl Hit). done.
        -- apply Hsome. right. exact Hrest.
      * intros Hd o Ho.
        assert (Hd' : library_type d' = None) by (apply (Hnone Hd); by left).
        rewrite Ht in Hd'. destruct (library_type acc) eqn:Ea; [discriminate|].
        destruct Ho as [<-|[<-|Ho]]; [done|done|]. apply (Hnone Hd). right. exact Ho.
      * intros t Hdt. destruct (Hfrom t Hdt) as [Hd'|Hrest]; [|right; right; exact Hrest].
        rewrite Ht in Hd'. destruct (library_type acc) eqn:Ea.
        -- left. done.
        -- right. left. done.
    + destruct (IH _ H) as (Hl' & Hf' & Hfl' & Hsome & Hnone & Hfrom).
      repeat split; done.
Qed.

Lemma eval_items_inl its acc e :
  eval_items condition_eval target its acc = inl e ->
  exists a b, In (Some a) (type_settings acc its) /\ In (Some b) (type_settings acc its) /\ a <> b.
Proof.
  unfold type_settings, matching.
  revert acc. induction its as [|it its IH]; intros acc H; simpl in H; [discriminate|].
  simpl. destruct (condition_eval (condition it) target) eqn:Hc.
  - destruct (add_from acc (data it)) as [e'|d'] eqn:Hadd.
    + unfold add_from in Hadd.
      destruct (library_type acc) as [t|] eqn:Ha; [|discriminate].
      destruct (library_type (data it)) as [t'|] eqn:Ho; [|discriminate].
      destruct (library_type_eqb t' t) eqn:E; [discriminate|].
      exists t, t'. split; [by left|]. split; [right; by left|].
      intros ->. destruct t'; discriminate.
    + destruct (add_from_inr _ _ _ Hadd) as (_ & _ & _ & Ht & _).
      destruct (IH _ H) as (a & b & Ha & Hb & Hab). exists a, b.
      assert (Hlift : forall x, In (Some x) (library_type d' :: map (fun it => library_type (data it))
                        (List.filter (fun it => condition_eval (condition it) target) its)) ->
                      In (Some x) (library_type acc :: library_type (data it) ::
                        map (fun it => library_type (data it))
                          (List.filter (fun it => condition_eval (condition it) target) its))).
      { intros x [Hx|Hx]; [|right; right; exact Hx].
        rewrite Ht in Hx. destruct (library_type acc); [left; done|right; left; done]. }
      split; [exact (Hlift a Ha)|split; [exact (Hlift b Hb)|exact Hab]].
  - destruct (IH _ H) as (a & b & Ha & Hb & Hab). exists a, b. done.
Qed.

End BuildConfigProofs.

(** C8: [CppBuildConfig::eval] concatenates the list fields of the items
    whose condition holds, in item order; it fails exactly when two such
    items set different library types, and otherwise the library type is
    the one set by the matching items that set it, or unset. *)
Theorem build_config_eval_spec {Condition Target : Type}
    (condition_eval : Condition -> Target -> bool) (cfg : CppBuildConfig Condition)
    (target : Target) :
  let matching_items :=
    List.filter (fun it => condition_eval (condition it) target) (items cfg) in
  ((exists e, eval condition_eval cfg target = inl e) <->
   exists i j a b, In i matching_items /\ In j matching_items /\
     library_type (data i) = Some a /\ library_type (data j) = Some b /\ a <> b) /\
  (forall d, eval condition_eval cfg target = inr d ->
     linked_libs d = flat_map (fun it => linked_libs (data it)) matching_items /\
     linked_frameworks d = flat_map (fun it => linked_frameworks (data it)) matching_items /\
     compiler_flags d = flat_map (fun it => compiler_flags (data it)) matching_items /\
     (forall it t, In it matching_items -> library_type (data it) = Some t ->
        library_type d = Some t) /\
     (forall t, library_type d = Some t ->
        exists it, In it matching_items /\ library_type (data it) = Some t) /\
     (library_type d = None ->
        forall it, In it matching_items -> library_type (data it) = None)).
Proof.
  intros matching_items. unfold eval.
  assert (Hset : forall x, In (Some x) (type_settings condition_eval target
                   default_build_config_data (items cfg)) <->
                 exists it, In it matching_items /\ library_type (data it) = Some x).
  { intros x. unfold type_settings. simpl. split.
    - intros [[=]|Hx]. apply in_map_iff in Hx as (it & Hit & Hin). eauto.
    - intros (it & Hin & Hit). right. apply in_map_iff. eauto. }
  split.
  - split.
    + intros [e He]. destruct (eval_items_inl _ _ _ _ _ He) as (a & b & Ha & Hb & Hab).
      apply Hset in Ha as (i & Hi & Hia). apply Hset in Hb as (j & Hj & Hjb).
      exists i, j, a, b. done.
    + intros (i & j & a & b & Hi & Hj & Hia & Hjb & Hab).
      destruct (eval_items condition_eval target (items cfg) default_build_config_data)
        as [e|d] eqn:Hev; [eauto|exfalso].
      destruct (eval_items_inr _ _ _ _ _ Hev) as (_ & _ & _ & Hsome & _).
      assert (Ha : library_type d = Some a) by (apply Hsome, Hset; eauto).
      assert (Hb : library_type d = Some b) by (apply Hsome, Hset; eauto).
      congruence.
  - intros d Hev.
    destruct (eval_items_inr _ _ _ _ _ Hev) as (Hl & Hf & Hfl & Hsome & Hnone & Hfrom).
    repeat split; try done.
    + intros it t Hin Ht. apply Hsome, Hset. eauto.
    + intros t Ht. apply Hset, Hfrom, Ht.
    + intros Hn it Hin. destruct (library_type (data it)) as [t|] eqn:Ht; [|done].
      exfalso. assert (In (Some t) (type_settings condition_eval target
                         default_build_config_data (items cfg))) as Hin'
        by (apply Hset; eauto).
      pose proof (Hnone Hn _ Hin'). discriminate.
Qed.

(** ** Header base name *)

Lemma string_length_append (p q : string) :
  String.length (p +:+ q) = String.length p + String.length q.
Proof.
  induction p as [|a p IH]; [done|].
  change (S (String.length (p +:+ q)) = S (String.length p + String.length q)). lia.
Qed.

Lemma substring_full (s : string) : String.substring 0 (String.length s) s = s.
Proof.
  induction s as [|a s IH]; [done|].
  change (String.String a (String.substring 0 (String.length s) s) = String.String a s).
  by rewrite IH.
Qed.

Lemma substring_append_l (p q : string) :
  String.substring 0 (String.length p) (p +:+ q) = p.
Proof.
  induction p as [|a p IH]; [by destruct q|].
  change (String.String a (String.substring 0 (String.length p) (p +:+ q)) = String.String a p).
  by rewrite IH.
Qed.

Lemma substring_append_r (p q : string) m :
  String.substring (String.length p) m (p +:+ q) = String.substring 0 m q.
Proof.
  induction p as [|a p IH]; [done|].
  change (String.substring (String.length p) m (p +:+ q) = String.substring 0 m q).
  exact IH.
Qed.

Lemma substring_split (s : string) n :
  n <= String.length s ->
  String.substring 0 n s +:+ String.substring n (String.length s - n) s = s.
Proof.
  revert n. induction s as [|a s IH]; intros n Hn.
  - destruct n; [done|simpl in Hn; lia].
  - destruct n as [|n].
    + change (String.String a s +:+ "" = String.String a s) with
        (String.String a s +:+ "" = String.String a s).
      rewrite Nat.sub_0_r.
      transitivity (String.substring 0 (String.length (String.String a s)) (String.String a s)).
      { reflexivity. }
      apply substring_full.
    + simpl in Hn.
      change (String.String a (String.substring 0 n s +:+
                String.substring n (String.length s - n) s) = String.String a s).
      rewrite IH by lia. done.
Qed.

(** C9: the base name of a header is its include-file name with the last
    two characters removed when the name ends with [".h"], and the name
    unchanged otherwise. *)
Theorem include_file_base_name_spec :
  (forall p : string, include_file_base_name (p +:+ ".h") = p) /\
  (forall s : string, (forall p, s <> p +:+ ".h") -> include_file_base_name s = s).
Proof.
  split.
  - intros p. unfold include_file_base_name, ends_with.
    rewrite string_length_append, Nat.add_sub, substring_append_r.
    change (String.length ".h") with 2. rewrite Nat.add_sub.
    replace (2 <=? String.length p + 2) with true by (symmetry; apply Nat.leb_le; lia).
    cbn [andb String.substring String.eqb].
    apply substring_append_l.
  - intros s Hs. unfold include_file_base_name.
    destruct (ends_with s ".h") eqn:He; [|done]. exfalso.
    unfold ends_with in He. apply andb_prop in He as [Hlen Heq].
    apply Nat.leb_le in Hlen. apply String.eqb_eq in Heq.
    apply (Hs (String.substring 0 (String.length s - String.length ".h") s)).
    pose proof (substring_split s (String.length s - String.length ".h") ltac:(lia)) as Hsp.
    replace (String.length s - (String.length s - String.length ".h"))
      with (String.length ".h") in Hsp by lia.
    rewrite Heq in Hsp. exact (eq_sym Hsp).
Qed.

(** ** Sample runs *)

Import Samples.

Lemma iter_forward_order {V} : hash_iteration_order (@iter_forward V).
Proof. intros h. done. Qed.

Lemma iter_reverse_order {V} : hash_iteration_order (@iter_reverse V).
Proof. intros h. unfold iter_reverse. symmetry. apply Permutation_rev. Qed.

Lemma ends_with_h (p : string) : ends_with (p +:+ ".h") ".h" = true.
Proof.
  unfold ends_with. rewrite string_length_append, Nat.add_sub, substring_append_r.
  change (String.length ".h") with 2.
  replace (2 <=? String.length p + 2) with true by (symmetry; apply Nat.leb_le; lia).
  reflexivity.
Qed.

Ltac solve_NoDup_strings :=
  vm_compute;
  repeat (apply List.NoDup_cons; [let Hin := fresh in intros Hin; simpl in Hin;
                                  intuition discriminate|]);
  apply List.NoDup_nil.

Ltac solve_not_NoDup_strings :=
  vm_compute; let H := fresh in intros H;
  repeat (let Hn := fresh in let Hd := fresh in
          apply List.NoDup_cons_iff in H as [Hn H];
          try (apply Hn; simpl; tauto)).

(** C1 on a sample: [A] (pure virtual [f]) is the only abstract class, and
    its constructor is dropped while the constructor of [B] is kept. *)
Lemma abstract_classes_constructors_dropped_witness :
  generate_abstract_classes sample_argument_types_equal (cpp_data generator_abstract) 3 =
    Ok (abstract_classes generator_abstract) /\
  (forall n, In n (abstract_classes generator_abstract) <->
     exists t bases pv, In t (types (cpp_data generator_abstract)) /\
       kind t = ClassKind bases /\ type_name t = n /\
       get_pure_virtual_methods sample_argument_types_equal (cpp_data generator_abstract) 3 n
         = Ok pv /\ pv <> []) /\
  process_methods sample_to_ffi_signatures sample_c_base_name sample_strategies sample_caption
    iter_forward generator_abstract "a" (methods data_abstract) =
    Ok [(method_f_of_A, "A_f"); (ctor_of_B, "B_B"); (method_f_of_B, "B_f")] /\
  (forall e, In e [(method_f_of_A, "A_f"); (ctor_of_B, "B_B"); (method_f_of_B, "B_f")] ->
     exists m rs, In m (methods data_abstract) /\ sample_to_ffi_signatures m = inr rs /\
       In (fst e) rs /\
       forall mem, class_membership m = Some mem -> is_constructor (method_kind mem) = true ->
         forall n, maybe_name (class_type mem) = Some n ->
           ~ In n (abstract_classes generator_abstract)).
Proof.
  assert (Hac : generate_abstract_classes sample_argument_types_equal
                  (cpp_data generator_abstract) 3 = Ok (abstract_classes generator_abstract))
    by (vm_compute; reflexivity).
  assert (Hout : process_methods sample_to_ffi_signatures sample_c_base_name sample_strategies
                   sample_caption iter_forward generator_abstract "a" (methods data_abstract) =
                 Ok [(method_f_of_A, "A_f"); (ctor_of_B, "B_B"); (method_f_of_B, "B_f")])
    by (vm_compute; reflexivity).
  destruct (abstract_classes_constructors_dropped sample_to_ffi_signatures sample_c_base_name
              sample_strategies sample_caption sample_argument_types_equal 3 iter_forward
              generator_abstract "a" (methods data_abstract)
              [(method_f_of_A, "A_f"); (ctor_of_B, "B_B"); (method_f_of_B, "B_f")] Hac)
    as [Hiff Hdrop].
  split; [exact Hac|]. split; [exact Hiff|]. split; [exact Hout|].
  exact (Hdrop iter_forward_order Hout).
Defined.

(** C2, counterexample: the class [B] whose only base is a template
    parameter resolves, without aborting, to its own method [h]. *)
Lemma template_base_not_fatal :
  get_all_methods sample_argument_types_equal data_template_base 3 "B" = Ok [method_h_of_B] /\
  get_pure_virtual_methods sample_argument_types_equal data_template_base 3 "B" = Ok [].
Proof. split; vm_compute; reflexivity. Qed.

Lemma nonclass_base_skipped_witness :
  find_type_info data_template_base "B" = Some (class_decl "B" [template_param_type]) /\
  get_all_methods sample_argument_types_equal data_template_base 3 "B" =
    Ok (own_methods data_template_base "B") /\
  get_pure_virtual_methods sample_argument_types_equal data_template_base 3 "B" =
    Ok (own_pure_virtual_methods data_template_base "B").
Proof.
  assert (Hf : find_type_info data_template_base "B" =
               Some (class_decl "B" [template_param_type])) by reflexivity.
  split; [exact Hf|].
  apply (proj2 (nonclass_base_skipped sample_argument_types_equal data_template_base 2 "B"
                  (class_decl "B" [template_param_type]) [template_param_type]) Hf).
  - reflexivity.
  - repeat constructor.
Defined.

(** C3 on samples: [f()] and [f(a)] share the base name [f]; strategy [0]
    gives them equal captions, strategy [1] distinct ones and is adopted;
    two [f()] cannot be told apart by any strategy and the group panics. *)
Lemma process_group_disambiguation_witness :
  process_group sample_strategies sample_caption "f" [method_f_no_arg; method_f_arg_a] =
    Ok [(method_f_no_arg, caption_name sample_caption "f" method_f_no_arg 1);
        (method_f_arg_a, caption_name sample_caption "f" method_f_arg_a 1)] /\
  process_group sample_strategies sample_caption "f" [method_f_no_arg; method_f_no_arg] =
    Panic "all type caption strategies have failed!".
Proof.
  split.
  - apply (proj1 (proj2 (process_group_disambiguation sample_strategies sample_caption "f"
                           [method_f_no_arg; method_f_arg_a]))
             ltac:(cbn; lia) [0] 1 []).
    + reflexivity.
    + solve_NoDup_strings.
    + constructor; [solve_not_NoDup_strings|constructor].
  - apply (proj2 (proj2 (process_group_disambiguation sample_strategies sample_caption "f"
                           [method_f_no_arg; method_f_no_arg]))
             ltac:(cbn; lia)).
    repeat constructor; solve_not_NoDup_strings.
Defined.

(** C4, counterexample (code bug): under the two admissible iteration
    orders the output of [process_methods] differs, since [f_a()] and the
    disambiguated [f(a)] both get the shim name [f_a] in one header and
    the stable sort keeps them in the order the groups were visited. *)
Lemma process_methods_order_dependent :
  hash_iteration_order (@iter_forward (list CppMethod)) /\
  hash_iteration_order (@iter_reverse (list CppMethod)) /\
  process_methods sample_to_ffi_signatures sample_c_base_name sample_strategies sample_caption
    iter_forward generator_empty "a" colliding_methods =
    Ok [(method_f_a, "f_a"); (method_f_arg_a, "f_a"); (method_f_arg_b, "f_b")] /\
  process_methods sample_to_ffi_signatures sample_c_base_name sample_strategies sample_caption
    iter_reverse generator_empty "a" colliding_methods =
    Ok [(method_f_arg_a, "f_a"); (method_f_a, "f_a"); (method_f_arg_b, "f_b")] /\
  [(method_f_a, "f_a"); (method_f_arg_a, "f_a"); (method_f_arg_b, "f_b")] <>
    [(method_f_arg_a, "f_a"); (method_f_a, "f_a"); (method_f_arg_b, "f_b")].
Proof.
  split; [apply iter_forward_order|]. split; [apply iter_reverse_order|].
  split; [vm_compute; reflexivity|]. split; [vm_compute; reflexivity|].
  intros H. injection H as H _ _. vm_compute in H. discriminate H.
Qed.


(** C5 on a sample: [B] overrides [A::g]; [B]'s method set is [A::h]
    followed by [B::g], with a single [g]. *)
Lemma get_all_methods_override_single_witness :
  get_all_methods sample_argument_types_equal data_override 3 "B" =
    Ok [method_h_of_A; method_g_of_B] /\
  List.filter (fun x => String.eqb (name x) (name method_g_of_B) &&
                        sample_argument_types_equal method_g_of_B x)
    [method_h_of_A; method_g_of_B] = [method_g_of_B] /\
  class_name method_g_of_B = Some "B" /\
  exists inherited, [method_h_of_A; method_g_of_B] = inherited ++ own_methods data_override "B".
Proof.
  assert (H : get_all_methods sample_argument_types_equal data_override 3 "B" =
              Ok [method_h_of_A; method_g_of_B]) by (vm_compute; reflexivity).
  split; [exact H|].
  apply (get_all_methods_override_single sample_argument_types_equal data_override 2 "B"
           method_g_of_B [method_h_of_A; method_g_of_B]).
  - vm_compute. reflexivity.
  - exact H.
Defined.

(** C6, counterexample: [B] derives [A], declared with its pure virtual
    [f] only in a dependency: [A] is not found and [B] gets nothing from it,
    while the same classes declared at the top level give [B] the method [f]. *)
Lemma dependency_base_not_resolved :
  get_all_methods sample_argument_types_equal data_dependency_base 3 "B" = Ok [] /\
  get_pure_virtual_methods sample_argument_types_equal data_dependency_base 3 "B" = Ok [] /\
  get_pure_virtual_methods sample_argument_types_equal data_top_level_base 3 "B" =
    Ok [method_f_of_A].
Proof. split; [|split]; vm_compute; reflexivity. Qed.

Lemma resolver_ignores_dependencies_witness :
  find_type_info data_dependency_base "A" = None /\
  get_all_methods sample_argument_types_equal data_dependency_base 3 "A" =
    Ok (own_methods data_dependency_base "A") /\
  get_pure_virtual_methods sample_argument_types_equal data_dependency_base 3 "A" =
    Ok (own_pure_virtual_methods data_dependency_base "A").
Proof.
  assert (Hn : find_type_info data_dependency_base "A" = None) by reflexivity.
  split; [exact Hn|].
  exact (proj2 (proj2 (resolver_ignores_dependencies sample_argument_types_equal
                         [class_decl "B" [class_type_of "A"]] []
                         [mkCppData [class_decl "A" []] [method_f_of_A] []] 2 "A")) Hn).
Defined.

(** C7 on a sample: the private [A::p] is skipped, the public [A::q] is
    the only method of the output. *)
Lemma private_methods_never_emitted_witness :
  skip_method generator_empty method_p_private <> Ok false /\
  process_methods sample_to_ffi_signatures sample_c_base_name sample_strategies sample_caption
    iter_forward generator_empty "a" [method_p_private; method_q_public] =
    Ok [(method_q_public, "A_q")].
Proof.
  split.
  - exact (proj1 (private_methods_never_emitted sample_to_ffi_signatures sample_c_base_name
                    sample_strategies sample_caption iter_forward generator_empty "a" []
                    []) method_p_private _ eq_refl eq_refl).
  - vm_compute. reflexivity.
Defined.

(** C8 on samples: two matching items setting [Shared] and [Static]
    conflict; with a non-matching [Static] item, the matching items agree
    and the result has their library type. *)
Lemma build_config_eval_spec_witness :
  (exists e, eval bool_condition_eval config_conflicting tt = inl e) /\
  eval bool_condition_eval config_agreeing tt =
    inr {| linked_libs := ["a"; "b"]; linked_frameworks := [];
           compiler_flags := ["-O2"; "-O2"]; library_type := Some Shared |} /\
  linked_libs {| linked_libs := ["a"; "b"]; linked_frameworks := [];
                 compiler_flags := ["-O2"; "-O2"]; library_type := Some Shared |} =
    flat_map (fun it => linked_libs (data it))
      (List.filter (fun it => bool_condition_eval (condition it) tt) (items config_agreeing)).
Proof.
  split.
  - apply (proj2 (proj1 (build_config_eval_spec bool_condition_eval config_conflicting tt))).
    exists {| condition := true; data := config_data ["a"] (Some Shared) |},
      {| condition := true; data := config_data ["b"] (Some Static) |}, Shared, Static.
    split; [simpl; tauto|]. split; [simpl; tauto|].
    split; [reflexivity|]. split; [reflexivity|]. discriminate.
  - assert (He : eval bool_condition_eval config_agreeing tt =
                 inr {| linked_libs := ["a"; "b"]; linked_frameworks := [];
                        compiler_flags := ["-O2"; "-O2"]; library_type := Some Shared |})
      by (vm_compute; reflexivity).
    split; [exact He|].
    exact (proj1 (proj2 (build_config_eval_spec bool_condition_eval config_agreeing tt) _ He)).
Defined.

(** C9 on samples: [qwidget.h] loses its suffix, [qvector.hpp] keeps it. *)
Lemma include_file_base_name_spec_witness :
  include_file_base_name "qwidget.h" = "qwidget" /\
  include_file_base_name "qvector.hpp" = "qvector.hpp".
Proof.
  split.
  - exact (proj1 include_file_base_name_spec "qwidget").
  - apply (proj2 include_file_base_name_spec). intros p Hp.
    pose proof (ends_with_h p) as He. rewrite <- Hp in He. vm_compute in He.
    discriminate He.
Defined.

(** C10 on a sample: in the group [f] made of [f()] and [f(a)], strategy
    [1] is adopted; [f()] has the empty caption and keeps the name [f],
    [f(a)] is named [f_a]. *)
Lemma colliding_group_names_witness :
  process_group sample_strategies sample_caption "f" [method_f_no_arg; method_f_arg_a] =
    Ok [(method_f_no_arg, "f"); (method_f_arg_a, "f_a")] /\
  exists strategy,
    List.find (captions_unique sample_caption [method_f_no_arg; method_f_arg_a])
      sample_strategies = Some strategy /\
    forall x n, In (x, n) [(method_f_no_arg, "f"); (method_f_arg_a, "f_a")] ->
      (sample_caption x strategy = "" -> n = "f") /\
      (sample_caption x strategy <> "" -> n = "f" +:+ "_" +:+ sample_caption x strategy).
Proof.
  assert (H : process_group sample_strategies sample_caption "f"
                [method_f_no_arg; method_f_arg_a] =
              Ok [(method_f_no_arg, "f"); (method_f_arg_a, "f_a")])
    by (vm_compute; reflexivity).
  split; [exact H|].
  exact (colliding_group_names sample_strategies sample_caption "f"
           [method_f_no_arg; method_f_arg_a] _ ltac:(cbn; lia) H).
Defined.

(* ================================================================== *)
(** * Further properties of the code *)

(** ** Inheritance resolver *)

Lemma sublist_filter_mono {A} (f : A -> bool) (l1 l2 : list A) :
  sublist l1 l2 -> sublist (List.filter f l1) (List.filter f l2).
Proof.
  induction 1 as [|x l1 l2 _ IH|x l1 l2 _ IH]; simpl; [done|..].
  - destruct (f x); [by apply sublist_skip|done].
  - destruct (f x); [by apply sublist_cons|done].
Qed.

Lemma sublist_List_filter {A} (f : A -> bool) (l : list A) : sublist (List.filter f l) l.
Proof.
  induction l as [|x l IH]; simpl; [done|].
  destruct (f x); [by apply sublist_skip|by apply sublist_cons].
Qed.

Section ResolverExtras.

Variable argument_types_equal : CppMethod -> CppMethod -> bool.
Variable cpp_data : CppData.

Lemma inherit_from_bases_rel r1 r2 own bases acc1 acc2 :
  (forall n, outcome_rel sublist (r1 n) (r2 n)) -> sublist acc1 acc2 ->
  outcome_rel sublist (inherit_from_bases argument_types_equal r1 own bases acc1)
    (inherit_from_bases argument_types_equal r2 own bases acc2).
Proof.
  intros Hr. revert acc1 acc2. induction bases as [|b bs IH]; intros acc1 acc2 Hacc;
    simpl; [done|].
  destruct (base b); try by apply IH.
  specialize (Hr name0). destruct (r1 name0), (r2 name0); simpl in *; try done.
  apply IH. apply sublist_app; [done|]. by apply sublist_filter_mono.
Qed.

(** The pure virtual method list of a class is an ordered sub-list of its
    full method list, and the two resolvers succeed, panic or recurse
    forever together. *)
Theorem pure_virtual_methods_sublist_all_methods fuel n :
  outcome_rel sublist
    (get_pure_virtual_methods argument_types_equal cpp_data fuel n)
    (get_all_methods argument_types_equal cpp_data fuel n).
Proof.
  revert n. induction fuel as [|fuel IH]; intros n; simpl; [done|].
  unfold resolve_step.
  destruct (find_type_info cpp_data n) as [t|];
    [|simpl; unfold own_pure_virtual_methods; apply sublist_List_filter].
  destruct (kind t) as [|bases]; [done|].
  pose proof (inherit_from_bases_rel (get_pure_virtual_methods argument_types_equal cpp_data fuel)
                (get_all_methods argument_types_equal cpp_data fuel) (own_methods cpp_data n)
                bases [] [] IH (sublist_nil_l _)) as H.
  destruct (inherit_from_bases _ _ _ _ _), (inherit_from_bases _ _ _ _ _); simpl in *; try done.
  apply sublist_app; [done|]. apply sublist_List_filter.
Qed.

Lemma inherit_from_bases_Forall (P : CppMethod -> Prop) resolve own bases acc r :
  (forall n ms, resolve n = Ok ms -> Forall P ms) -> Forall P acc ->
  inherit_from_bases argument_types_equal resolve own bases acc = Ok r -> Forall P r.
Proof.
  intros Hres. revert acc. induction bases as [|b bs IH]; intros acc Hacc H; simpl in H.
  - by injection H as <-.
  - destruct (base b); try by apply (IH acc).
    apply obind_Ok in H as (ms & Hms & H). refine (IH _ _ H).
    apply Forall_app; split; [done|]. apply List.Forall_forall. intros x Hx.
    apply filter_In in Hx as [Hx _]. exact (proj1 (List.Forall_forall _ _) (Hres _ _ Hms) x Hx).
Qed.

(** Every method of the transitive pure virtual list of a class is a
    pure virtual member function. *)
Theorem pure_virtual_methods_are_pure fuel n ms :
  get_pure_virtual_methods argument_types_equal cpp_data fuel n = Ok ms ->
  Forall (fun m => exists mem, class_membership m = Some mem /\ is_pure_virtual mem = true) ms.
Proof.
  revert n ms. induction fuel as [|fuel IH]; intros n ms H; simpl in H; [discriminate|].
  unfold resolve_step in H. apply obind_Ok in H as (inh & Hinh & H). injection H as <-.
  apply Forall_app. split.
  - destruct (find_type_info cpp_data n) as [t|]; [|by injection Hinh as <-].
    destruct (kind t) as [|bases]; [discriminate|].
    exact (inherit_from_bases_Forall _ _ _ _ _ _ IH (List.Forall_nil _) Hinh).
  - apply List.Forall_forall. intros m Hm. unfold own_pure_virtual_methods in Hm.
    apply filter_In in Hm as [_ Hm]. unfold method_is_pure_virtual in Hm.
    destruct (class_membership m) as [mem|]; [eauto|discriminate].
Qed.

(** A class whose first class-type base is the class itself makes both
    resolvers recurse without end: no amount of fuel gives a result. *)
Theorem self_derived_class_diverges n t pre b post fuel :
  find_type_info cpp_data n = Some t ->
  kind t = ClassKind (pre ++ b :: post) ->
  Forall (fun b' => is_class_base b' = false) pre ->
  (exists targs, base b = Class n targs) ->
  get_all_methods argument_types_equal cpp_data fuel n = Diverge /\
  get_pure_virtual_methods argument_types_equal cpp_data fuel n = Diverge.
Proof.
  intros Ht Hk Hpre [targs Hb].
  assert (Hskip : forall resolve own acc,
    inherit_from_bases argument_types_equal resolve own (pre ++ b :: post) acc =
    (ms <-- resolve n ; inherit_from_bases argument_types_equal resolve own post
                         (acc ++ List.filter (fun method => negb (shadowed argument_types_equal own method)) ms))).
  { clear Hk Ht. intros resolve own acc. revert acc.
    induction Hpre as [|b' pre Hb' _ IHp]; intros acc; simpl.
    - by rewrite Hb.
    - unfold is_class_base in Hb'. destruct (base b'); try discriminate; apply IHp. }
  induction fuel as [|fuel [IH1 IH2]]; [done|].
  simpl. unfold resolve_step. rewrite Ht, Hk, !Hskip, IH1, IH2. done.
Qed.

End ResolverExtras.

(** ** Method processing *)

Section ProcessMethodsExtras.

Context {Sig : Type}.
Variable to_ffi_signatures : CppMethod -> string + list Sig.
Variable c_base_name : Sig -> string -> string + string.
Context {Strategy : Type}.
Variable all_strategies : list Strategy.
Variable caption : Sig -> Strategy -> string.

Lemma skip_method_cases g m :
  (exists b, skip_method g m = Ok b) \/
  skip_method g m = Panic "called `Option::unwrap()` on a `None` value".
Proof.
  unfold skip_method, skip_for_membership.
  repeat (match goal with |- context [match ?x with _ => _ end] => destruct x end;
          cbn [obind]); eauto.
Qed.

Lemma collect_candidates_cases g ifbn ms (hash : gmap string (list Sig)) :
  (exists h, collect_candidates to_ffi_signatures c_base_name g ifbn ms hash = Ok h) \/
  collect_candidates to_ffi_signatures c_base_name g ifbn ms hash =
    Panic "called `Option::unwrap()` on a `None` value".
Proof.
  revert hash. induction ms as [|m ms IH]; intros hash; simpl; [eauto|].
  destruct (skip_method_cases g m) as [[b ->]| ->]; cbn [obind]; [|by right].
  destruct b; [apply IH|]. destruct (to_ffi_signatures m); apply IH.
Qed.

(* The outcomes [process_methods] can have: a result, or a panic with one
   of its two messages. *)
Lemma process_methods_cases hash_iter g ifbn ms :
  (exists out, process_methods to_ffi_signatures c_base_name all_strategies caption
                 hash_iter g ifbn ms = Ok out) \/
  process_methods to_ffi_signatures c_base_name all_strategies caption hash_iter g ifbn ms
    = Panic "called `Option::unwrap()` on a `None` value" \/
  process_methods to_ffi_signatures c_base_name all_strategies caption hash_iter g ifbn ms
    = Panic "all type caption strategies have failed!".
Proof.
  unfold process_methods.
  destruct (collect_candidates_cases g ifbn ms ∅) as [[h ->]| ->]; cbn [obind];
    [|by right; left].
  destruct (process_groups_cases all_strategies caption (hash_iter h)) as [-> | ->];
    cbn [obind]; [left; eauto|by right; right].
Qed.

Lemma collect_candidates_unnamed_ctor g ifbn ms (hash : gmap string (list Sig)) m mem :
  In m ms -> class_membership m = Some mem -> is_constructor (method_kind mem) = true ->
  maybe_name (class_type mem) = None ->
  collect_candidates to_ffi_signatures c_base_name g ifbn ms hash =
    Panic "called `Option::unwrap()` on a `None` value".
Proof.
  intros Hin Hm Hc Hn. revert hash. induction ms as [|m' ms IH]; intros hash;
    [destruct Hin|].
  simpl. destruct Hin as [<-|Hin].
  - unfold skip_method, skip_for_membership. rewrite Hm, Hc, Hn. reflexivity.
  - destruct (skip_method_cases g m') as [[b ->]| ->]; cbn [obind]; [|done].
    destruct b; [by apply IH|]. destruct (to_ffi_signatures m'); by apply IH.
Qed.

(** A constructor whose class type has no name ([maybe_name] is [None])
    anywhere in the method list makes [process_methods] panic on the
    [unwrap] of that name, whatever the other methods are. *)
Theorem process_methods_unnamed_constructor_panics hash_iter g ifbn ms m mem :
  In m ms -> class_membership m = Some mem -> is_constructor (method_kind mem) = true ->
  maybe_name (class_type mem) = None ->
  process_methods to_ffi_signatures c_base_name all_strategies caption hash_iter g ifbn ms
    = Panic "called `Option::unwrap()` on a `None` value".
Proof.
  intros Hin Hm Hc Hn. unfold process_methods.
  rewrite (collect_candidates_unnamed_ctor _ _ _ _ _ _ Hin Hm Hc Hn). reflexivity.
Qed.

(** The invariant of [hash1]: every candidate is stored under its base name. *)
Lemma insert_into_hash_keys ifbn (h : gmap string (list Sig)) key v :
  (forall k vs x, h !! k = Some vs -> In x vs -> c_base_name x ifbn = inr k) ->
  c_base_name v ifbn = inr key ->
  forall k vs x, insert_into_hash h key v !! k = Some vs -> In x vs ->
    c_base_name x ifbn = inr k.
Proof.
  intros Hh Hv k vs x Hk Hx. unfold insert_into_hash in Hk.
  destruct (decide (key = k)) as [<-|Hne].
  - destruct (h !! key) as [vs0|] eqn:E; rewrite lookup_insert_eq in Hk;
      injection Hk as <-.
    + apply in_app_or in Hx as [Hx|[<-|[]]]; [eauto|done].
    + destruct Hx as [<-|[]]. done.
  - destruct (h !! key); rewrite lookup_insert_ne in Hk by done; eauto.
Qed.

Lemma insert_results_keys ifbn (h : gmap string (list Sig)) results :
  (forall k vs x, h !! k = Some vs -> In x vs -> c_base_name x ifbn = inr k) ->
  forall k vs x, insert_results c_base_name ifbn h results !! k = Some vs -> In x vs ->
    c_base_name x ifbn = inr k.
Proof.
  unfold insert_results. revert h. induction results as [|r rs IH]; intros h Hh; simpl;
    [done|].
  apply IH. destruct (c_base_name r ifbn) as [|nm] eqn:E; [done|].
  by apply insert_into_hash_keys.
Qed.

Lemma collect_candidates_keys g ifbn ms (hash hash' : gmap string (list Sig)) :
  (forall k vs x, hash !! k = Some vs -> In x vs -> c_base_name x ifbn = inr k) ->
  collect_candidates to_ffi_signatures c_base_name g ifbn ms hash = Ok hash' ->
  forall k vs x, hash' !! k = Some vs -> In x vs -> c_base_name x ifbn = inr k.
Proof.
  revert hash. induction ms as [|m ms IH]; intros hash Hh H; simpl in H.
  - by injection H as <-.
  - apply obind_Ok in H as (skipped & _ & H).
    destruct skipped; [by apply (IH hash)|].
    destruct (to_ffi_signatures m) as [|results]; [by apply (IH hash)|].
    eapply IH; [|exact H]. by apply insert_results_keys.
Qed.

(** Monotonicity and completeness of the first loop. *)
Lemma insert_into_hash_mono (h : gmap string (list Sig)) key v k vs x :
  h !! k = Some vs -> In x vs ->
  exists vs', insert_into_hash h key v !! k = Some vs' /\ In x vs'.
Proof.
  intros Hk Hx. unfold insert_into_hash.
  destruct (decide (key = k)) as [<-|Hne].
  - rewrite Hk, lookup_insert_eq. eexists; split; [done|]. apply in_or_app. by left.
  - destruct (h !! key); rewrite lookup_insert_ne by done; eauto.
Qed.

Lemma insert_into_hash_new (h : gmap string (list Sig)) key v :
  exists vs', insert_into_hash h key v !! key = Some vs' /\ In v vs'.
Proof.
  unfold insert_into_hash. destruct (h !! key); rewrite lookup_insert_eq;
    eexists; (split; [done|]); [apply in_or_app; right|]; by left.
Qed.

Lemma insert_results_mono ifbn (h : gmap string (list Sig)) results k vs x :
  h !! k = Some vs -> In x vs ->
  exists vs', insert_results c_base_name ifbn h results !! k = Some vs' /\ In x vs'.
Proof.
  unfold insert_results. revert h vs. induction results as [|r rs IH]; intros h vs Hk Hx;
    simpl; [eauto|].
  destruct (c_base_name r ifbn) as [|nm]; [eauto|].
  destruct (insert_into_hash_mono h nm r k vs x Hk Hx) as (vs' & Hk' & Hx'). eauto.
Qed.

Lemma insert_results_new ifbn (h : gmap string (list Sig)) results x k :
  In x results -> c_base_name x ifbn = inr k ->
  exists vs, insert_results c_base_name ifbn h results !! k = Some vs /\ In x vs.
Proof.
  unfold insert_results. revert h. induction results as [|r rs IH]; intros h Hin Hx;
    [destruct Hin|].
  simpl. destruct Hin as [->|Hin]; [|by apply IH].
  rewrite Hx. destruct (insert_into_hash_new h k x) as (vs & Hk & Hv).
  by apply (insert_results_mono ifbn _ rs k vs x).
Qed.

Lemma collect_candidates_mono g ifbn ms (hash hash' : gmap string (list Sig)) k vs x :
  collect_candidates to_ffi_signatures c_base_name g ifbn ms hash = Ok hash' ->
  hash !! k = Some vs -> In x vs -> exists vs', hash' !! k = Some vs' /\ In x vs'.
Proof.
  revert hash vs. induction ms as [|m ms IH]; intros hash vs H Hk Hx; simpl in H.
  - injection H as <-. eauto.
  - apply obind_Ok in H as (skipped & _ & H).
    destruct skipped; [by eapply IH|].
    destruct (to_ffi_signatures m) as [|results]; [by eapply IH|].
    destruct (insert_results_mono ifbn hash results k vs x Hk Hx) as (vs1 & Hk1 & Hx1).
    by eapply IH.
Qed.

Lemma collect_candidates_new g ifbn ms (hash hash' : gmap string (list Sig)) m rs x k :
  collect_candidates to_ffi_signatures c_base_name g ifbn ms hash = Ok hash' ->
  In m ms -> skip_method g m = Ok false -> to_ffi_signatures m = inr rs -> In x rs ->
  c_base_name x ifbn = inr k ->
  exists vs, hash' !! k = Some vs /\ In x vs.
Proof.
  revert hash. induction ms as [|m' ms IH]; intros hash H Hin Hskip Hsig Hx Hk;
    [destruct Hin|].
  simpl in H. destruct Hin as [<-|Hin].
  - rewrite Hskip in H. cbn [obind] in H. rewrite Hsig in H.
    destruct (insert_results_new ifbn hash rs x k Hx Hk) as (vs & Hvs & Hxv).
    by eapply collect_candidates_mono.
  - apply obind_Ok in H as (skipped & _ & H).
    destruct skipped; [by eapply IH|].
    destruct (to_ffi_signatures m'); by eapply IH.
Qed.

Lemma process_group_complete key values r x :
  process_group all_strategies caption key values = Ok r -> In x values ->
  exists n, In (x, n) r.
Proof.
  unfold process_group. intros H Hx. destruct values as [|v [|w vs]].
  - destruct Hx.
  - injection H as <-. destruct Hx as [<-|[]]. exists key. by left.
  - destruct (List.find _ _) as [s|]; [|discriminate]. injection H as <-.
    exists (caption_name caption key x s).
    change (In (x, caption_name caption key x s)
              (map (fun x => (x, caption_name caption key x s)) (v :: w :: vs))).
    apply (in_map (fun x => (x, caption_name caption key x s))). exact Hx.
Qed.

Lemma process_groups_complete entries r key values x :
  process_groups all_strategies caption entries = Ok r ->
  In (key, values) entries -> In x values -> exists n, In (x, n) r.
Proof.
  revert r. induction entries as [|[k vs] es IH]; intros r H Hin Hx; [destruct Hin|].
  cbn [process_groups] in H.
  apply obind_Ok in H as (r1 & H1 & H). apply obind_Ok in H as (r2 & H2 & H).
  injection H as <-. destruct Hin as [Heq|Hin].
  - injection Heq as -> ->. destruct (process_group_complete _ _ _ _ H1 Hx) as [n Hn].
    exists n. apply in_or_app. by left.
  - destruct (IH _ H2 Hin Hx) as [n Hn]. exists n. apply in_or_app. by right.
Qed.

(** Every signature produced for a method that passes all the filters,
    and whose base name can be computed, is in the output of
    [process_methods] under some name. *)
Theorem process_methods_complete hash_iter g ifbn ms out m rs x k :
  hash_iteration_order hash_iter ->
  process_methods to_ffi_signatures c_base_name all_strategies caption hash_iter g ifbn ms
    = Ok out ->
  In m ms -> skip_method g m = Ok false -> to_ffi_signatures m = inr rs -> In x rs ->
  c_base_name x ifbn = inr k ->
  exists n, In (x, n) out.
Proof.
  intros Horder H Hin Hskip Hsig Hx Hk. unfold process_methods in H.
  apply obind_Ok in H as (hash1 & Hhash & H). apply obind_Ok in H as (r & Hr & H).
  injection H as <-.
  destruct (collect_candidates_new _ _ _ _ _ _ _ _ _ Hhash Hin Hskip Hsig Hx Hk)
    as (vs & Hvs & Hxv).
  assert (Hent : In (k, vs) (hash_iter hash1)).
  { eapply Permutation_in; [symmetry; apply Horder|].
    apply list_elem_of_In, elem_of_map_to_list. exact Hvs. }
  destruct (process_groups_complete _ _ _ _ _ Hr Hent Hxv) as [n Hn].
  exists n. eapply Permutation_in; [symmetry; apply (sort_by_Permutation c_name_le)|exact Hn].
Qed.

Lemma process_group_names key values r :
  process_group all_strategies caption key values = Ok r ->
  forall x n, In (x, n) r ->
    n = key \/ exists s, In s all_strategies /\ n = caption_name caption key x s.
Proof.
  unfold process_group. intros H x n Hin. destruct values as [|v [|w vs]].
  - destruct (List.find _ _); [|discriminate]. injection H as <-. destruct Hin.
  - injection H as <-. destruct Hin as [[=]|[]]. by left.
  - destruct (List.find _ _) as [s|] eqn:Hs; [|discriminate]. injection H as <-.
    right. exists s. split; [eapply find_some; exact Hs|].
    change (In (x, n) (map (fun x => (x, caption_name caption key x s)) (v :: w :: vs))) in Hin.
    apply in_map_iff in Hin as (y & Hy & _). by injection Hy as -> <-.
Qed.

Lemma process_groups_names ifbn entries r :
  (forall k vs x, In (k, vs) entries -> In x vs -> c_base_name x ifbn = inr k) ->
  process_groups all_strategies caption entries = Ok r ->
  forall x n, In (x, n) r -> exists k, c_base_name x ifbn = inr k /\
    (n = k \/ exists s, In s all_strategies /\ n = caption_name caption k x s).
Proof.
  revert r. induction entries as [|[k vs] es IH]; intros r Hkeys H x n Hin; simpl in H.
  - injection H as <-. destruct Hin.
  - apply obind_Ok in H as (r1 & H1 & H). apply obind_Ok in H as (r2 & H2 & H).
    injection H as <-. apply in_app_or in Hin as [Hin|Hin].
    + exists k. split.
      * apply (Hkeys k vs); [by left|]. exact (process_group_members _ _ _ _ _ H1 (x, n) Hin).
      * exact (process_group_names _ _ _ H1 x n Hin).
    + eapply IH; [|exact H2|exact Hin]. intros k' vs' x' Hin'. apply Hkeys. by right.
Qed.

(** The output of [process_methods] is sorted by final name, and the name
    of every signature is its base name, or, in a group of several
    candidates, the base name extended with the caption under one of the
    caption strategies. *)
Theorem process_methods_names_sorted hash_iter g ifbn ms out :
  hash_iteration_order hash_iter ->
  process_methods to_ffi_signatures c_base_name all_strategies caption hash_iter g ifbn ms
    = Ok out ->
  Sorted (fun a b => String.le (snd a) (snd b)) out /\
  forall x n, In (x, n) out -> exists k, c_base_name x ifbn = inr k /\
    (n = k \/ exists s, In s all_strategies /\ n = caption_name caption k x s).
Proof.
  intros Horder H. unfold process_methods in H.
  apply obind_Ok in H as (hash1 & Hhash & H). apply obind_Ok in H as (r & Hr & H).
  injection H as <-. split; [apply (sort_by_Sorted c_name_le)|].
  intros x n Hin.
  apply (process_groups_names ifbn (hash_iter hash1) r); [|exact Hr|].
  - intros k vs y Hkv Hy.
    assert (Hvs : hash1 !! k = Some vs).
    { apply elem_of_map_to_list, list_elem_of_In.
      eapply Permutation_in; [apply Horder|exact Hkv]. }
    refine (collect_candidates_keys g ifbn ms ∅ hash1 _ Hhash k vs y Hvs Hy).
    intros k' vs' y'. rewrite lookup_empty. discriminate.
  - eapply Permutation_in; [apply (sort_by_Permutation c_name_le)|exact Hin].
Qed.

Lemma caption_name_inj key x y s :
  caption_name caption key x s = caption_name caption key y s -> caption x s = caption y s.
Proof.
  unfold caption_name. intros H. apply String.app_inj in H.
  destruct (String.eqb (caption x s) "") eqn:Ex, (String.eqb (caption y s) "") eqn:Ey.
  - apply String.eqb_eq in Ex, Ey. congruence.
  - exfalso. apply String.eqb_eq in Ex. apply String.eqb_neq in Ey.
    rewrite Ex in H. apply (f_equal String.length) in H.
    rewrite string_length_append in H. simpl in H. lia.
  - exfalso. apply String.eqb_eq in Ey. apply String.eqb_neq in Ex.
    rewrite Ey in H. apply (f_equal String.length) in H.
    rewrite string_length_append in H. simpl in H. lia.
  - apply String.app_inj in H. exact H.
Qed.

Lemma NoDup_map_of_NoDup_map {A B C} (f : A -> B) (g : A -> C) (l : list A) :
  (forall x y, In x l -> In y l -> g x = g y -> f x = f y) ->
  List.NoDup (map f l) -> List.NoDup (map g l).
Proof.
  induction l as [|z l IH]; intros Hfg Hnd; simpl; [constructor|].
  simpl in Hnd. apply List.NoDup_cons_iff in Hnd as [Hz Hnd].
  constructor.
  - intros Hin. apply in_map_iff in Hin as (y & Hy & Hyl). apply Hz.
    rewrite <- (Hfg y z); [by apply in_map|right|left|]; done.
  - apply IH; [|done]. intros x y Hx Hy. apply Hfg; by right.
Qed.

(** Within one group of [hash1], the final names given by [process_methods]
    are pairwise distinct. *)
Theorem process_group_names_distinct key values r :
  process_group all_strategies caption key values = Ok r -> List.NoDup (map snd r).
Proof.
  unfold process_group. intros H. destruct values as [|v [|w vs]].
  - destruct (List.find _ _); [|discriminate]. injection H as <-. constructor.
  - injection H as <-. repeat constructor. intros [].
  - destruct (List.find _ _) as [s|] eqn:Hs; [|discriminate]. injection H as <-.
    apply find_some in Hs as [_ Hs]. apply captions_unique_NoDup in Hs.
    change (List.NoDup (map snd (map (fun x => (x, caption_name caption key x s))
                                     (v :: w :: vs)))).
    rewrite map_map. cbn [snd].
    apply (NoDup_map_of_NoDup_map (fun x => caption x s)); [|exact Hs].
    intros x y _ _. apply caption_name_inj.
Qed.

Lemma skip_method_false_full g m :
  skip_method g m = Ok false ->
  template_arguments m = None /\ is_template_class_method g m = false /\
  forall mem, class_membership m = Some mem ->
    visibility mem = Public /\ is_signal mem = false.
Proof.
  unfold skip_method. intros H.
  destruct (class_membership m) as [mem|] eqn:Hm.
  - destruct (skip_for_membership g mem) as [b| |] eqn:Hs; cbn [obind] in H;
      try discriminate.
    unfold skip_for_membership in Hs.
    destruct b; [discriminate|].
    destruct (template_arguments m); [discriminate|]. injection H as H.
    split; [done|]. split; [done|]. intros mem' [= <-].
    apply obind_Ok in Hs as (skipped & _ & Hs). injection Hs as Hs.
    apply orb_false_iff in Hs as [Hs Hsig]. apply orb_false_iff in Hs as [Hs Hprot].
    apply orb_false_iff in Hs as [_ Hpriv].
    split; [|done]. destruct (visibility mem); done.
  - cbn [obind] in H. destruct (template_arguments m); [discriminate|].
    injection H as H. split; [done|]. split; [done|]. done.
Qed.

(** Every entry of the output of [process_methods] comes from a signature
    of a method of the input that is public, is not a signal, is not a
    template method and does not belong to a template class. *)
Theorem process_methods_emitted_filters hash_iter g ifbn ms out :
  hash_iteration_order hash_iter ->
  process_methods to_ffi_signatures c_base_name all_strategies caption hash_iter g ifbn ms
    = Ok out ->
  forall e, In e out ->
    exists m rs, In m ms /\ to_ffi_signatures m = inr rs /\ In (fst e) rs /\
      template_arguments m = None /\ is_template_class_method g m = false /\
      forall mem, class_membership m = Some mem ->
        visibility mem = Public /\ is_signal mem = false.
Proof.
  intros Horder Hout e He.
  destruct (process_methods_provenance _ _ _ _ _ _ _ _ _ Horder Hout e He)
    as (m & rs & Hin & Hskip & Hsig & Hx).
  exists m, rs. do 3 (split; [done|]). exact (skip_method_false_full _ _ Hskip).
Qed.

End ProcessMethodsExtras.

(** ** The header loop of [generate_all] *)

#[local] Instance header_le_trans {Sig} : Transitive (@header_le Sig).
Proof. intros a b c. unfold header_le. apply transitivity. Qed.

#[local] Instance header_le_total {Sig} : Total (@header_le Sig).
Proof. intros a b. unfold header_le. apply total, _. Qed.

Lemma Forall2_In_r {A B} (R : A -> B -> Prop) l1 l2 y :
  Forall2 R l1 l2 -> In y l2 -> exists x, In x l1 /\ R x y.
Proof.
  induction 1 as [|x y' l1 l2 Hxy _ IH]; intros Hy; [destruct Hy|].
  destruct Hy as [<-|Hy]; [exists x; split; [left|]; done|].
  destruct (IH Hy) as (x' & ? & ?). exists x'. split; [right|]; done.
Qed.

Lemma Forall2_In_l {A B} (R : A -> B -> Prop) l1 l2 x :
  Forall2 R l1 l2 -> In x l1 -> exists y, In y l2 /\ R x y.
Proof.
  induction 1 as [|x' y l1 l2 Hxy _ IH]; intros Hx; [destruct Hx|].
  destruct Hx as [<-|Hx]; [exists y; split; [left|]; done|].
  destruct (IH Hx) as (y' & ? & ?). exists y'. split; [right|]; done.
Qed.

Lemma List_NoDup_map_filter {A B} (f : A -> B) (p : A -> bool) l :
  List.NoDup (map f l) -> List.NoDup (map f (List.filter p l)).
Proof.
  induction l as [|x l IH]; intros Hnd; simpl; [constructor|].
  simpl in Hnd. apply List.NoDup_cons_iff in Hnd as [Hx Hnd].
  destruct (p x); [|by apply IH]. simpl. constructor; [|by apply IH].
  intros Hin. apply Hx. apply in_map_iff in Hin as (y & Hy & Hyl).
  apply filter_In in Hyl as [Hyl _]. rewrite <- Hy. by apply in_map.
Qed.

Lemma List_NoDup_map_inv {A B} (f : A -> B) l : List.NoDup (map f l) -> List.NoDup l.
Proof.
  induction l as [|x l IH]; intros Hnd; simpl; [constructor|].
  simpl in Hnd. apply List.NoDup_cons_iff in Hnd as [Hx Hnd].
  constructor; [|by apply IH]. intros Hin. apply Hx. by apply in_map.
Qed.

Section HeaderExtras.

Context {Sig : Type}.
Variable to_ffi_signatures : CppMethod -> string + list Sig.
Variable c_base_name : Sig -> string -> string + string.
Context {Strategy : Type}.
Variable all_strategies : list Strategy.
Variable caption : Sig -> Strategy -> string.
Variable hash_iter : gmap string (list Sig) -> list (string * list Sig).

Local Abbreviation header_methods :=
  (header_methods to_ffi_signatures c_base_name all_strategies caption hash_iter).
Local Abbreviation header_entry :=
  (header_entry to_ffi_signatures c_base_name all_strategies caption hash_iter).

Lemma generate_headers_loop_Ok g entries ch nl hs ns :
  generate_headers_loop to_ffi_signatures c_base_name all_strategies caption hash_iter
    g entries ch nl = Ok (hs, ns) ->
  exists hs', hs = ch ++ hs' /\ ns = nl ++ map ffi_include_file hs' /\
    Forall2 (header_entry g) (List.filter kept_header entries) hs'.
Proof.
  revert ch nl. induction entries as [|[f d] es IH]; intros ch nl H; simpl in H.
  - injection H as <- <-. exists []. rewrite !app_nil_r. done.
  - unfold kept_header. cbn [List.filter fst].
    destruct (String.eqb f "QFlags" || String.eqb f "QFlag"); cbn [negb]; [by apply IH|].
    apply obind_Ok in H as (ms & Hms & H).
    destruct (IH _ _ H) as (hs' & -> & -> & HF).
    eexists. split; [rewrite <- app_assoc; reflexivity|].
    split; [rewrite <- app_assoc; reflexivity|].
    constructor; [|exact HF]. repeat split; done.
Qed.

Lemma generate_headers_loop_cases g entries ch nl :
  (exists r, generate_headers_loop to_ffi_signatures c_base_name all_strategies caption
               hash_iter g entries ch nl = Ok r) \/
  exists e msg, In e (List.filter kept_header entries) /\ header_methods g e = Panic msg /\
    generate_headers_loop to_ffi_signatures c_base_name all_strategies caption hash_iter
      g entries ch nl = Panic msg.
Proof.
  revert ch nl. induction entries as [|[f d] es IH]; intros ch nl; simpl; [eauto|].
  unfold kept_header at 1. cbn [fst].
  destruct (String.eqb f "QFlags" || String.eqb f "QFlag"); cbn [negb].
  - destruct (IH ch nl) as [?|(e & msg & ? & ?)]; [left; done|right; eauto].
  - destruct (process_methods_cases to_ffi_signatures c_base_name all_strategies caption
                hash_iter g (include_file_base_name f) (methods d))
      as [[ms Hms]|[Hp|Hp]].
    + rewrite Hms. cbn [obind].
      destruct (IH (ch ++ [{| ffi_include_file := f;
                              ffi_include_file_base_name := include_file_base_name f;
                              ffi_methods := ms |}]) (nl ++ [f]))
        as [?|(e & msg & ? & ?)]; [left; done|].
      right. exists e, msg. split; [by right|done].
    + rewrite Hp. right. eexists (f, d), _. split; [by left|]. done.
    + rewrite Hp. right. eexists (f, d), _. split; [by left|]. done.
Qed.

Lemma generate_headers_loop_all_Ok g entries ch nl :
  (forall e, In e (List.filter kept_header entries) -> exists ms, header_methods g e = Ok ms) ->
  exists r, generate_headers_loop to_ffi_signatures c_base_name all_strategies caption
              hash_iter g entries ch nl = Ok r.
Proof.
  intros Hall. destruct (generate_headers_loop_cases g entries ch nl)
    as [?|(e & msg & Hin & Hp & _)]; [done|].
  destruct (Hall e Hin) as [ms Hms]. congruence.
Qed.

Lemma kept_entries_In headers_iter (m : gmap string CppData) f d :
  hash_iteration_order headers_iter ->
  In (f, d) (List.filter kept_header (headers_iter m)) <->
  m !! f = Some d /\ f <> "QFlags" /\ f <> "QFlag".
Proof.
  intros Hord. rewrite filter_In. unfold kept_header. cbn [fst].
  rewrite negb_true_iff, orb_false_iff, !String.eqb_neq.
  assert (Hin : In (f, d) (headers_iter m) <-> m !! f = Some d).
  { rewrite <- elem_of_map_to_list, list_elem_of_In.
    split; apply Permutation_in; [|symmetry]; apply Hord. }
  rewrite Hin. tauto.
Qed.

Lemma kept_entries_NoDup headers_iter (m : gmap string CppData) :
  hash_iteration_order headers_iter ->
  List.NoDup (map fst (List.filter kept_header (headers_iter m))).
Proof.
  intros Hord. apply List_NoDup_map_filter.
  eapply Permutation_NoDup; [apply Permutation_map; symmetry; apply Hord|].
  apply NoDup_ListNoDup. apply NoDup_fst_map_to_list.
Qed.

Lemma Forall2_header_entry_files g es hs :
  Forall2 (header_entry g) es hs -> map ffi_include_file hs = map fst es.
Proof. induction 1 as [|e h es hs [Hf _] _ IH]; simpl; [done|]. by rewrite Hf, IH. Qed.

(** What [generate_all] hands to the code generator, for an admissible
    iteration order of [cpp_data_by_headers]: the headers are sorted by
    include file; their include files are pairwise distinct and are, as a
    permutation, the include name list, which holds exactly the keys of
    [cpp_data_by_headers] other than [QFlags] and [QFlag]; each header has
    the base name of its include file and the processed methods of its
    data. *)
Theorem generate_headers_spec headers_iter g (m : gmap string CppData) hs names :
  hash_iteration_order headers_iter ->
  generate_headers to_ffi_signatures c_base_name all_strategies caption hash_iter
    headers_iter g m = Ok (hs, names) ->
  Sorted header_le hs /\
  names ≡ₚ map ffi_include_file hs /\
  List.NoDup names /\
  (forall f, In f names <-> (exists d, m !! f = Some d) /\ f <> "QFlags" /\ f <> "QFlag") /\
  (forall h, In h hs -> exists d, m !! ffi_include_file h = Some d /\
     ffi_include_file_base_name h = include_file_base_name (ffi_include_file h) /\
     process_methods to_ffi_signatures c_base_name all_strategies caption hash_iter g
       (ffi_include_file_base_name h) (methods d) = Ok (ffi_methods h)).
Proof.
  intros Hord H. unfold generate_headers in H.
  apply obind_Ok in H as ([ch nl] & Hloop & H). injection H as <- <-.
  destruct (generate_headers_loop_Ok _ _ _ _ _ _ Hloop) as (hs' & -> & -> & HF).
  cbn [app] in *. pose proof (Forall2_header_entry_files _ _ _ HF) as Hfiles.
  split; [apply (sort_by_Sorted header_le)|].
  split; [apply Permutation_map; symmetry; apply (sort_by_Permutation header_le)|].
  split; [rewrite Hfiles; by apply kept_entries_NoDup|].
  split.
  - intros f. rewrite Hfiles, in_map_iff. split.
    + intros ([f' d] & <- & Hin). apply (kept_entries_In headers_iter m f' d Hord) in Hin.
      destruct Hin as (? & ? & ?). eauto.
    + intros ([d Hd] & Hq1 & Hq2). exists (f, d). split; [done|].
      by apply (kept_entries_In headers_iter m f d Hord).
  - intros h Hh.
    assert (Hh' : In h hs').
    { eapply Permutation_in; [apply (sort_by_Permutation header_le)|exact Hh]. }
    destruct (Forall2_In_r _ _ _ _ HF Hh') as ([f d] & Hin & Hf & Hb & Hms).
    apply (kept_entries_In headers_iter m f d Hord) in Hin as (Hd & _).
    cbn [fst] in Hf, Hb. exists d. split; [by rewrite Hf|]. split; [by rewrite Hf|].
    rewrite Hb. exact Hms.
Qed.

(** For an admissible iteration order, the header loop never loops: it
    succeeds exactly when the methods of every header other than [QFlags]
    and [QFlag] are processed without panic, and when it panics, it is with
    the message of such a header's processing. *)
Theorem generate_headers_outcome headers_iter g (m : gmap string CppData) :
  hash_iteration_order headers_iter ->
  ((exists r, generate_headers to_ffi_signatures c_base_name all_strategies caption hash_iter
                headers_iter g m = Ok r) <->
   forall f d, m !! f = Some d -> f <> "QFlags" -> f <> "QFlag" ->
     exists ms, process_methods to_ffi_signatures c_base_name all_strategies caption hash_iter
                  g (include_file_base_name f) (methods d) = Ok ms) /\
  (forall msg, generate_headers to_ffi_signatures c_base_name all_strategies caption hash_iter
                 headers_iter g m = Panic msg ->
     exists f d, m !! f = Some d /\ f <> "QFlags" /\ f <> "QFlag" /\
       process_methods to_ffi_signatures c_base_name all_strategies caption hash_iter
         g (include_file_base_name f) (methods d) = Panic msg) /\
  generate_headers to_ffi_signatures c_base_name all_strategies caption hash_iter
    headers_iter g m <> Diverge.
Proof.
  intros Hord. unfold generate_headers.
  destruct (generate_headers_loop_cases g (headers_iter m) [] [])
    as [[[ch nl] Hok]|([f d] & msg & Hin & Hp & Hpanic)].
  - rewrite Hok. cbn [obind]. split; [|split; [discriminate|discriminate]].
    split; [|eauto]. intros _ f d Hd Hq1 Hq2.
    destruct (generate_headers_loop_Ok _ _ _ _ _ _ Hok) as (hs' & _ & _ & HF).
    assert (Hin : In (f, d) (List.filter kept_header (headers_iter m)))
      by (by apply kept_entries_In).
    destruct (Forall2_In_l _ _ _ _ HF Hin) as (h & _ & _ & _ & Hms). eauto.
  - rewrite Hpanic. cbn [obind].
    apply (kept_entries_In headers_iter m f d Hord) in Hin as (Hd & Hq1 & Hq2).
    split; [|split; [|discriminate]].
    + split; [intros [r Hr]; discriminate|]. intros Hall.
      destruct (Hall f d Hd Hq1 Hq2) as [ms Hms]. unfold header_methods in Hp.
      cbn [fst snd] in Hp. congruence.
    + intros msg' [= <-]. exists f, d. done.
Qed.

(** The headers handed to the code generator do not depend on the
    iteration order of [cpp_data_by_headers]: under two admissible orders,
    the loop succeeds in both or in neither, both runs give the same sorted
    headers, and the include name lists are permutations of one another. *)
Theorem generate_headers_order_independent it1 it2 g (m : gmap string CppData) :
  hash_iteration_order it1 -> hash_iteration_order it2 ->
  ((exists r, generate_headers to_ffi_signatures c_base_name all_strategies caption hash_iter
                it1 g m = Ok r) <->
   (exists r, generate_headers to_ffi_signatures c_base_name all_strategies caption hash_iter
                it2 g m = Ok r)) /\
  forall hs1 n1 hs2 n2,
    generate_headers to_ffi_signatures c_base_name all_strategies caption hash_iter
      it1 g m = Ok (hs1, n1) ->
    generate_headers to_ffi_signatures c_base_name all_strategies caption hash_iter
      it2 g m = Ok (hs2, n2) ->
    hs1 = hs2 /\ n1 ≡ₚ n2.
Proof.
  intros Ho1 Ho2. split.
  - rewrite (proj1 (generate_headers_outcome it1 g m Ho1)),
            (proj1 (generate_headers_outcome it2 g m Ho2)). done.
  - intros hs1 n1 hs2 n2 H1 H2.
    destruct (generate_headers_spec _ _ _ _ _ Ho1 H1)
      as (Hs1 & Hp1 & Hnd1 & Hn1 & Hh1).
    destruct (generate_headers_spec _ _ _ _ _ Ho2 H2)
      as (Hs2 & Hp2 & Hnd2 & Hn2 & Hh2).
    assert (Hnames : forall f, In f n1 <-> In f n2) by (intros f; rewrite Hn1, Hn2; done).
    assert (Hf1 : List.NoDup (map ffi_include_file hs1))
      by (eapply Permutation_NoDup; [exact Hp1|exact Hnd1]).
    assert (Hf2 : List.NoDup (map ffi_include_file hs2))
      by (eapply Permutation_NoDup; [exact Hp2|exact Hnd2]).
    (* a header is determined by its include file *)
    assert (Hsame : forall h1 h2, In h1 hs1 -> In h2 hs2 ->
                      ffi_include_file h1 = ffi_include_file h2 -> h1 = h2).
    { intros h1 h2 Hin1 Hin2 Hf.
      destruct (Hh1 h1 Hin1) as (d1 & Hd1 & Hb1 & Hm1).
      destruct (Hh2 h2 Hin2) as (d2 & Hd2 & Hb2 & Hm2).
      rewrite Hf in Hd1. rewrite Hd1 in Hd2. injection Hd2 as <-.
      rewrite Hb1, Hf, <- Hb2 in Hm1. rewrite Hm1 in Hm2. injection Hm2 as Hm.
      destruct h1, h2; cbn in *. congruence. }
    assert (Hin12 : forall h1, In h1 hs1 -> exists h2, In h2 hs2 /\
                      ffi_include_file h1 = ffi_include_file h2).
    { intros h1 Hin1.
      assert (Hn : In (ffi_include_file h1) n2).
      { apply Hnames. eapply Permutation_in; [symmetry; exact Hp1|].
        by apply in_map. }
      eapply Permutation_in in Hn; [|exact Hp2].
      apply in_map_iff in Hn as (h2 & Hf & Hin2). eauto. }
    assert (Hin21 : forall h2, In h2 hs2 -> exists h1, In h1 hs1 /\
                      ffi_include_file h1 = ffi_include_file h2).
    { intros h2 Hin2.
      assert (Hn : In (ffi_include_file h2) n1).
      { apply Hnames. eapply Permutation_in; [symmetry; exact Hp2|].
        by apply in_map. }
      eapply Permutation_in in Hn; [|exact Hp1].
      apply in_map_iff in Hn as (h1 & Hf & Hin1). eauto. }
    assert (Hperm : hs1 ≡ₚ hs2).
    { apply NoDup_Permutation.
      - apply NoDup_ListNoDup. exact (List_NoDup_map_inv _ _ Hf1).
      - apply NoDup_ListNoDup. exact (List_NoDup_map_inv _ _ Hf2).
      - intros h. rewrite !list_elem_of_In. split.
        + intros Hin1. destruct (Hin12 h Hin1) as (h2 & Hin2 & Hf).
          by rewrite (Hsame h h2 Hin1 Hin2 Hf).
        + intros Hin2. destruct (Hin21 h Hin2) as (h1 & Hin1 & Hf).
          by rewrite <- (Hsame h1 h Hin1 Hin2 Hf). }
    split.
    + apply (Sorted_unique_strong header_le); [|exact Hs1|exact Hs2|exact Hperm].
      intros x1 x2 Hx1 Hx2 H12 H21. apply list_elem_of_In in Hx1, Hx2.
      apply Hsame; [exact Hx1|exact Hx2|]. apply (anti_symm String.le); done.
    + rewrite Hp1, Hp2. apply Permutation_map. exact Hperm.
Qed.

End HeaderExtras.

(** [generate_all] end to end: every method of every header comes from a
    signature of a method of that header's data, and it is never a
    constructor of a class type whose transitive pure virtual method list
    is non-empty. *)
Theorem generate_all_no_abstract_constructors {Sig Strategy : Type}
    (to_ffi_signatures : CppMethod -> string + list Sig)
    (c_base_name : Sig -> string -> string + string) (all_strategies : list Strategy)
    (caption : Sig -> Strategy -> string) hash_iter
    (argument_types_equal : CppMethod -> CppMethod -> bool) (fuel : nat)
    (split_by_headers : CppData -> gmap string CppData) headers_iter (g : CGenerator)
    hs names :
  hash_iteration_order hash_iter -> hash_iteration_order headers_iter ->
  generate_all to_ffi_signatures c_base_name all_strategies caption hash_iter
    argument_types_equal fuel split_by_headers headers_iter g = Ok (hs, names) ->
  forall h e, In h hs -> In e (ffi_methods h) ->
    exists d m rs, split_by_headers (cpp_data g) !! ffi_include_file h = Some d /\
      In m (methods d) /\ to_ffi_signatures m = inr rs /\ In (fst e) rs /\
      forall mem, class_membership m = Some mem -> is_constructor (method_kind mem) = true ->
        forall t bases pv, In t (types (cpp_data g)) -> kind t = ClassKind bases ->
          maybe_name (class_type mem) = Some (type_name t) ->
          get_pure_virtual_methods argument_types_equal (cpp_data g) fuel (type_name t)
            = Ok pv ->
          pv = [].
Proof.
  intros Hord Hhord H h e Hh He. unfold generate_all in H.
  apply obind_Ok in H as (ac & Hac & H).
  destruct (generate_headers_spec _ _ _ _ _ _ _ _ _ _ Hhord H) as (_ & _ & _ & _ & Hhs).
  destruct (Hhs h Hh) as (d & Hd & _ & Hms).
  destruct (process_methods_provenance _ _ _ _ _ _ _ _ _ Hord Hms e He)
    as (m & rs & Hin & Hskip & Hsig & Hx).
  exists d, m, rs. repeat split; try done.
  intros mem Hm Hc t bases pv Ht Hk Hn Hpv.
  destruct (skip_method_false _ _ _ Hskip Hm) as [_ Hnot].
  specialize (Hnot Hc _ Hn). cbn [abstract_classes] in Hnot.
  destruct pv as [|p pv]; [done|]. exfalso. apply Hnot.
  apply (collect_abstract_classes_spec argument_types_equal (cpp_data g) fuel _ _ Hac).
  exists t, bases, (p :: pv). done.
Qed.

(** ** Build configuration *)

(** [add_from] with an empty [CppBuildConfigData] on either side changes
    nothing and never fails. *)
Theorem add_from_default_identity (d : CppBuildConfigData) :
  add_from default_build_config_data d = inr d /\
  add_from d default_build_config_data = inr d.
Proof.
  destruct d as [l f c t]. unfold add_from; cbn.
  split; [reflexivity|]. rewrite !app_nil_r. destruct t; reflexivity.
Qed.

(** Merging is associative, errors included: merging [b] into [a] and
    then [c] gives the same result, or the same error, as merging into [a]
    the merge of [c] into [b]. *)
Theorem add_from_assoc (a b c : CppBuildConfigData) :
  match add_from a b with inl e => inl e | inr ab => add_from ab c end =
  match add_from b c with inl e => inl e | inr bc => add_from a bc end.
Proof.
  destruct a as [la fa ca ta], b as [lb fb cb tb], c as [lc fc cc tc].
  destruct ta as [[]|], tb as [[]|], tc as [[]|]; unfold add_from; cbn;
    rewrite ?app_assoc; reflexivity.
Qed.

Section BuildConfigExtras.

Context {Condition Target : Type}.
Variable condition_eval : Condition -> Target -> bool.

Lemma eval_items_app target l1 l2 acc :
  eval_items condition_eval target (l1 ++ l2) acc =
  match eval_items condition_eval target l1 acc with
  | inl e => inl e
  | inr acc' => eval_items condition_eval target l2 acc'
  end.
Proof.
  revert acc. induction l1 as [|it l1 IH]; intros acc; simpl; [done|].
  destruct (condition_eval (condition it) target); [|apply IH].
  destruct (add_from acc (data it)); [done|apply IH].
Qed.

(** Evaluating a configuration after [add] is evaluating the
    configuration before it, then, when the new condition holds on the
    target, merging the new data into the result. *)
Theorem eval_add (cfg : CppBuildConfig Condition) c d target :
  eval condition_eval (add cfg c d) target =
  if condition_eval c target then
    match eval condition_eval cfg target with
    | inl e => inl e
    | inr acc => add_from acc d
    end
  else eval condition_eval cfg target.
Proof.
  unfold eval, add. cbn [items]. rewrite eval_items_app.
  destruct (eval_items condition_eval target (items cfg) default_build_config_data)
    as [e|acc]; cbn; destruct (condition_eval c target); try done.
  destruct (add_from acc d); done.
Qed.

End BuildConfigExtras.

(** [add_compiler_flags] appends the flags, in order, to the compiler
    flags and leaves the other fields unchanged. *)
Theorem add_compiler_flags_spec (self : CppBuildConfigData) (items0 : list string) :
  add_compiler_flags self items0 = {|
    linked_libs := linked_libs self; linked_frameworks := linked_frameworks self;
    compiler_flags := compiler_flags self ++ items0; library_type := library_type self |}.
Proof.
  unfold add_compiler_flags. revert self. induction items0 as [|x xs IH]; intros self; simpl.
  - destruct self; cbn. by rewrite app_nil_r.
  - rewrite IH. cbn. by rewrite <- app_assoc.
Qed.

(** ** Build paths *)

Section BuildPathsExtras.

Variable path_eqb : string -> string -> bool.

Lemma fold_push_path_spec (ps acc : list string) :
  ForallOrdPairs (fun x y => path_eqb x y = false) acc ->
  exists l, fold_left (push_path path_eqb) ps acc = acc ++ l /\ sublist l ps /\
    ForallOrdPairs (fun x y => path_eqb x y = false) (acc ++ l) /\
    (forall p, In p acc -> In p (acc ++ l)) /\
    ((forall p, path_eqb p p = true) ->
     forall p, In p ps -> exists q, In q (acc ++ l) /\ path_eqb q p = true).
Proof.
  revert acc. induction ps as [|p ps IH]; intros acc Hacc; simpl.
  - exists []. rewrite app_nil_r. repeat split; try done; intros _ p [].
  - unfold push_path at 2. destruct (existsb (fun x => path_eqb x p) acc) eqn:E.
    + destruct (IH acc Hacc) as (l & Hl & Hsub & Hnd & Hkeep & Hcov).
      exists l. repeat split; try done.
      * by apply sublist_cons.
      * intros Hrefl q [<-|Hq]; [|by apply Hcov].
        apply existsb_exists in E as (x & Hx & Hxp). exists x. split; [by apply Hkeep|done].
    + assert (Hacc' : ForallOrdPairs (fun x y => path_eqb x y = false) (acc ++ [p])).
      { clear IH. induction Hacc as [|a acc Ha Hacc IHacc]; simpl.
        - repeat constructor.
        - simpl in E. apply orb_false_iff in E as [Eap E]. constructor.
          + apply Forall_app. split; [done|]. by constructor.
          + by apply IHacc. }
      destruct (IH (acc ++ [p]) Hacc') as (l & Hl & Hsub & Hnd & Hkeep & Hcov).
      exists (p :: l). rewrite <- app_assoc in Hl, Hnd, Hkeep, Hcov. cbn [app] in *.
      repeat split; try done.
      * by apply sublist_skip.
      * intros q Hq. apply Hkeep. apply in_or_app. by left.
      * intros Hrefl q [<-|Hq]; [|by apply Hcov].
        exists p. split; [apply Hkeep; apply in_or_app; right; by left|apply Hrefl].
Qed.

Lemma fold_add_lib_path ps s :
  fold_left (add_lib_path path_eqb) ps s =
  {| lib_paths := fold_left (push_path path_eqb) ps (lib_paths s);
     framework_paths := framework_paths s; include_paths := include_paths s |}.
Proof.
  revert s. induction ps as [|p ps IH]; intros s; simpl; [by destruct s|]. by rewrite IH.
Qed.

Lemma fold_add_framework_path ps s :
  fold_left (add_framework_path path_eqb) ps s =
  {| lib_paths := lib_paths s;
     framework_paths := fold_left (push_path path_eqb) ps (framework_paths s);
     include_paths := include_paths s |}.
Proof.
  revert s. induction ps as [|p ps IH]; intros s; simpl; [by destruct s|]. by rewrite IH.
Qed.

Lemma fold_add_include_path ps s :
  fold_left (add_include_path path_eqb) ps s =
  {| lib_paths := lib_paths s; framework_paths := framework_paths s;
     include_paths := fold_left (push_path path_eqb) ps (include_paths s) |}.
Proof.
  revert s. induction ps as [|p ps IH]; intros s; simpl; [by destruct s|]. by rewrite IH.
Qed.

Lemma list_filter_ext (f g : string -> bool) l :
  (forall x, f x = g x) -> List.filter f l = List.filter g l.
Proof. intros Hfg. induction l as [|x l IH]; simpl; [done|]. by rewrite Hfg, IH. Qed.

Lemma list_filter_filter (f g : string -> bool) l :
  List.filter f (List.filter g l) = List.filter (fun x => g x && f x) l.
Proof.
  induction l as [|x l IH]; simpl; [done|].
  destruct (g x); simpl; [destruct (f x)|]; by rewrite ?IH.
Qed.

Lemma list_filter_absorb (f g : string -> bool) l :
  (forall x, g x = false -> f x = false) ->
  List.filter f (List.filter g l) = List.filter f l.
Proof.
  intros Hgf. rewrite list_filter_filter. apply list_filter_ext. intros x.
  destruct (g x) eqn:E; [done|]. by rewrite Hgf.
Qed.

(** Filtering by a test that does not tell equal paths apart commutes with
    keeping the first occurrences. *)
Lemma first_occurrences_filter (f : string -> bool) l :
  (forall a b, path_eqb a b = true -> f a = f b) ->
  first_occurrences path_eqb (List.filter f l) = List.filter f (first_occurrences path_eqb l).
Proof.
  intros Hf. induction l as [|a l IH]; simpl; [done|].
  destruct (f a) eqn:Ea; simpl.
  - rewrite IH, !list_filter_filter. f_equal. apply list_filter_ext. intros x.
    apply andb_comm.
  - rewrite IH. symmetry. apply list_filter_absorb. intros x Hx.
    apply negb_false_iff in Hx. by rewrite <- (Hf a x Hx).
Qed.

Lemma fold_push_path_first
    (Hsym : forall p q, path_eqb p q = path_eqb q p)
    (Htrans : forall p q r, path_eqb p q = true -> path_eqb q r = true -> path_eqb p r = true)
    (ps acc : list string) :
  fold_left (push_path path_eqb) ps acc =
  acc ++ first_occurrences path_eqb
           (List.filter (fun q => negb (existsb (fun x => path_eqb x q) acc)) ps).
Proof.
  revert acc. induction ps as [|p ps IH]; intros acc; simpl; [by rewrite app_nil_r|].
  unfold push_path at 2. destruct (existsb (fun x => path_eqb x p) acc) eqn:E; simpl;
    [apply IH|].
  rewrite IH, <- app_assoc. cbn [app]. f_equal. f_equal.
  rewrite <- first_occurrences_filter.
  - f_equal. rewrite list_filter_filter. apply list_filter_ext. intros q.
    rewrite existsb_app. simpl. by rewrite orb_false_r, negb_orb.
  - intros a b Hab. f_equal.
    destruct (path_eqb p a) eqn:Ea, (path_eqb p b) eqn:Eb; try done.
    + by rewrite (Htrans p a b Ea Hab) in Eb.
    + rewrite Hsym in Hab. by rewrite (Htrans p b a Eb Hab) in Ea.
Qed.

(** Adding a list of paths one by one to an empty [CppBuildPaths], with
    [add_lib_path], [add_framework_path] or [add_include_path], gives the
    first occurrence of each added path, in order ([first_occurrences]),
    with no two equal paths; the other two lists stay empty. This holds
    when the path equality is symmetric and transitive, as [PathBuf]'s
    equality is. *)
Theorem build_paths_first_occurrences
    (Hsym : forall p q, path_eqb p q = path_eqb q p)
    (Htrans : forall p q r, path_eqb p q = true -> path_eqb q r = true -> path_eqb p r = true)
    (ps : list string) add field :
  In (add, field) [(add_lib_path path_eqb, lib_paths);
                   (add_framework_path path_eqb, framework_paths);
                   (add_include_path path_eqb, include_paths)] ->
  let paths := fold_left add ps new_build_paths in
  field paths = first_occurrences path_eqb ps /\
  ForallOrdPairs (fun x y => path_eqb x y = false) (field paths) /\
  length (lib_paths paths ++ framework_paths paths ++ include_paths paths) =
    length (field paths).
Proof.
  intros Hin paths.
  assert (Hfo : fold_left (push_path path_eqb) ps [] = first_occurrences path_eqb ps).
  { rewrite fold_push_path_first by done. cbn [app existsb negb].
    f_equal. induction ps as [|p ps IH]; simpl; [done|]. by rewrite IH. }
  destruct (fold_push_path_spec ps [] (FOP_nil _)) as (l & Hl & _ & Hnd & _).
  cbn [app] in Hl, Hnd. rewrite Hl in Hfo. subst l.
  simpl in Hin.
  destruct Hin as [Heq|[Heq|[Heq|[]]]]; injection Heq as <- <-; unfold paths.
  - rewrite fold_add_lib_path. cbn. rewrite Hl, app_nil_r. repeat split; auto.
  - rewrite fold_add_framework_path. cbn. rewrite Hl, app_nil_r. repeat split; auto.
  - rewrite fold_add_include_path. cbn. rewrite Hl. repeat split; auto.
Qed.

End BuildPathsExtras.

(** ** Sample runs of the further properties *)

(** The pure virtual list of [B], derived from [A] with its pure virtual
    [f], is [A::f]. *)
Lemma pure_virtual_methods_are_pure_witness :
  get_pure_virtual_methods sample_argument_types_equal data_top_level_base 3 "B" =
    Ok [method_f_of_A] /\
  Forall (fun m => exists mem, class_membership m = Some mem /\ is_pure_virtual mem = true)
    [method_f_of_A].
Proof.
  assert (H : get_pure_virtual_methods sample_argument_types_equal data_top_level_base 3 "B"
              = Ok [method_f_of_A]) by (vm_compute; reflexivity).
  split; [exact H|].
  exact (pure_virtual_methods_are_pure sample_argument_types_equal data_top_level_base 3 "B"
           _ H).
Defined.

(** [S], its own base, exhausts any fuel: here five levels. *)
Lemma self_derived_class_diverges_witness :
  find_type_info data_self_derived "S" = Some (class_decl "S" [class_type_of "S"]) /\
  get_all_methods sample_argument_types_equal data_self_derived 5 "S" = Diverge /\
  get_pure_virtual_methods sample_argument_types_equal data_self_derived 5 "S" = Diverge.
Proof.
  assert (Hf : find_type_info data_self_derived "S" =
               Some (class_decl "S" [class_type_of "S"])) by reflexivity.
  split; [exact Hf|].
  apply (self_derived_class_diverges sample_argument_types_equal data_self_derived "S"
           (class_decl "S" [class_type_of "S"]) [] (class_type_of "S") [] 5 Hf).
  - reflexivity.
  - constructor.
  - exists None. reflexivity.
Defined.

(** The public [A::q] followed by a constructor without a class name:
    the run panics on the [unwrap]. *)
Lemma process_methods_unnamed_constructor_panics_witness :
  process_methods sample_to_ffi_signatures sample_c_base_name sample_strategies sample_caption
    iter_forward generator_empty "a" [method_q_public; ctor_unnamed] =
    Panic "called `Option::unwrap()` on a `None` value".
Proof.
  apply (process_methods_unnamed_constructor_panics sample_to_ffi_signatures
           sample_c_base_name sample_strategies sample_caption iter_forward generator_empty "a"
           [method_q_public; ctor_unnamed] ctor_unnamed unnamed_ctor_membership).
  - right. left. reflexivity.
  - reflexivity.
  - reflexivity.
  - reflexivity.
Defined.

(** [f(a)] passes the filters and has base name [f]: it is in the output. *)
Lemma process_methods_complete_witness :
  process_methods sample_to_ffi_signatures sample_c_base_name sample_strategies sample_caption
    iter_forward generator_empty "a" distinct_methods =
    Ok [(method_f_no_arg, "f"); (method_f_arg_a, "f_a"); (method_f_arg_b, "f_b")] /\
  exists n, In (method_f_arg_a, n)
    [(method_f_no_arg, "f"); (method_f_arg_a, "f_a"); (method_f_arg_b, "f_b")].
Proof.
  assert (H : process_methods sample_to_ffi_signatures sample_c_base_name sample_strategies
                sample_caption iter_forward generator_empty "a" distinct_methods =
              Ok [(method_f_no_arg, "f"); (method_f_arg_a, "f_a"); (method_f_arg_b, "f_b")])
    by (vm_compute; reflexivity).
  split; [exact H|].
  apply (process_methods_complete sample_to_ffi_signatures sample_c_base_name
           sample_strategies sample_caption iter_forward generator_empty "a" distinct_methods
           _ method_f_arg_a [method_f_arg_a] method_f_arg_a "f" iter_forward_order H).
  - right. left. reflexivity.
  - vm_compute. reflexivity.
  - reflexivity.
  - left. reflexivity.
  - reflexivity.
Defined.

(** [f_a()], [f(a)] and [f(b)]: the output is sorted by name; [f_a()]
    keeps its base name, the two overloads of [f] get captions. *)
Lemma process_methods_names_sorted_witness :
  process_methods sample_to_ffi_signatures sample_c_base_name sample_strategies sample_caption
    iter_forward generator_empty "a" colliding_methods =
    Ok [(method_f_a, "f_a"); (method_f_arg_a, "f_a"); (method_f_arg_b, "f_b")] /\
  Sorted (fun a b => String.le (snd a) (snd b))
    [(method_f_a, "f_a"); (method_f_arg_a, "f_a"); (method_f_arg_b, "f_b")] /\
  forall x n, In (x, n) [(method_f_a, "f_a"); (method_f_arg_a, "f_a"); (method_f_arg_b, "f_b")] ->
    exists k, sample_c_base_name x "a" = inr k /\
      (n = k \/ exists s, In s sample_strategies /\ n = caption_name sample_caption k x s).
Proof.
  assert (H : process_methods sample_to_ffi_signatures sample_c_base_name sample_strategies
                sample_caption iter_forward generator_empty "a" colliding_methods =
              Ok [(method_f_a, "f_a"); (method_f_arg_a, "f_a"); (method_f_arg_b, "f_b")])
    by (vm_compute; reflexivity).
  split; [exact H|].
  exact (process_methods_names_sorted sample_to_ffi_signatures sample_c_base_name
           sample_strategies sample_caption iter_forward generator_empty "a" colliding_methods
           _ iter_forward_order H).
Defined.

(** The group [f] made of [f()] and [f(a)] gets the distinct names [f]
    and [f_a]. *)
Lemma process_group_names_distinct_witness :
  process_group sample_strategies sample_caption "f" [method_f_no_arg; method_f_arg_a] =
    Ok [(method_f_no_arg, "f"); (method_f_arg_a, "f_a")] /\
  List.NoDup (map snd [(method_f_no_arg, "f"); (method_f_arg_a, "f_a")]).
Proof.
  assert (H : process_group sample_strategies sample_caption "f"
                [method_f_no_arg; method_f_arg_a] =
              Ok [(method_f_no_arg, "f"); (method_f_arg_a, "f_a")])
    by (vm_compute; reflexivity).
  split; [exact H|].
  exact (process_group_names_distinct sample_strategies sample_caption "f"
           [method_f_no_arg; method_f_arg_a] _ H).
Defined.

(** Of a private, a public, a protected method, a signal, a template
    method and a method of the template class [T], only the public [A::q]
    is emitted. *)
Lemma process_methods_emitted_filters_witness :
  process_methods sample_to_ffi_signatures sample_c_base_name sample_strategies sample_caption
    iter_forward generator_template "a" filter_methods = Ok [(method_q_public, "A_q")] /\
  forall e, In e [(method_q_public, "A_q")] ->
    exists m rs, In m filter_methods /\ sample_to_ffi_signatures m = inr rs /\
      In (fst e) rs /\ template_arguments m = None /\
      is_template_class_method generator_template m = false /\
      forall mem, class_membership m = Some mem ->
        visibility mem = Public /\ is_signal mem = false.
Proof.
  assert (H : process_methods sample_to_ffi_signatures sample_c_base_name sample_strategies
                sample_caption iter_forward generator_template "a" filter_methods =
              Ok [(method_q_public, "A_q")]) by (vm_compute; reflexivity).
  split; [exact H|].
  exact (process_methods_emitted_filters sample_to_ffi_signatures sample_c_base_name
           sample_strategies sample_caption iter_forward generator_template "a" filter_methods
           _ iter_forward_order H).
Defined.

(** The headers [a.h] and [b.h] (and [QFlags], skipped): the include name
    list is a permutation of the include files of the sorted headers. *)
Lemma generate_headers_spec_witness :
  generate_headers sample_to_ffi_signatures sample_c_base_name sample_strategies sample_caption
    iter_forward iter_forward generator_abstract sample_headers =
    Ok ([header_a; header_b], ["a.h"; "b.h"]) /\
  Sorted header_le [header_a; header_b] /\
  ["a.h"; "b.h"] ≡ₚ map ffi_include_file [header_a; header_b].
Proof.
  assert (H : generate_headers sample_to_ffi_signatures sample_c_base_name sample_strategies
                sample_caption iter_forward iter_forward generator_abstract sample_headers =
              Ok ([header_a; header_b], ["a.h"; "b.h"])) by (vm_compute; reflexivity).
  destruct (generate_headers_spec sample_to_ffi_signatures sample_c_base_name
              sample_strategies sample_caption iter_forward iter_forward generator_abstract
              sample_headers _ _ iter_forward_order H) as (Hs & Hp & _).
  split; [exact H|]. split; [exact Hs|exact Hp].
Defined.

(** With the header [a.h] holding a constructor without a class name, the
    loop panics with the message of that header's processing. *)
Lemma generate_headers_outcome_witness :
  generate_headers sample_to_ffi_signatures sample_c_base_name sample_strategies sample_caption
    iter_forward iter_forward generator_empty panicking_headers =
    Panic "called `Option::unwrap()` on a `None` value" /\
  exists f d, panicking_headers !! f = Some d /\ f <> "QFlags" /\ f <> "QFlag" /\
    process_methods sample_to_ffi_signatures sample_c_base_name sample_strategies sample_caption
      iter_forward generator_empty (include_file_base_name f) (methods d) =
      Panic "called `Option::unwrap()` on a `None` value".
Proof.
  assert (H : generate_headers sample_to_ffi_signatures sample_c_base_name sample_strategies
                sample_caption iter_forward iter_forward generator_empty panicking_headers =
              Panic "called `Option::unwrap()` on a `None` value")
    by (vm_compute; reflexivity).
  split; [exact H|].
  exact (proj1 (proj2 (generate_headers_outcome sample_to_ffi_signatures sample_c_base_name
                         sample_strategies sample_caption iter_forward iter_forward
                         generator_empty panicking_headers iter_forward_order)) _ H).
Defined.

(** The two iteration orders of the header map give the same headers and
    the include name lists [a.h; b.h] and [b.h; a.h]. *)
Lemma generate_headers_order_independent_witness :
  generate_headers sample_to_ffi_signatures sample_c_base_name sample_strategies sample_caption
    iter_forward iter_forward generator_abstract sample_headers =
    Ok ([header_a; header_b], ["a.h"; "b.h"]) /\
  generate_headers sample_to_ffi_signatures sample_c_base_name sample_strategies sample_caption
    iter_forward iter_reverse generator_abstract sample_headers =
    Ok ([header_a; header_b], ["b.h"; "a.h"]) /\
  ["a.h"; "b.h"] ≡ₚ ["b.h"; "a.h"].
Proof.
  assert (H1 : generate_headers sample_to_ffi_signatures sample_c_base_name sample_strategies
                 sample_caption iter_forward iter_forward generator_abstract sample_headers =
               Ok ([header_a; header_b], ["a.h"; "b.h"])) by (vm_compute; reflexivity).
  assert (H2 : generate_headers sample_to_ffi_signatures sample_c_base_name sample_strategies
                 sample_caption iter_forward iter_reverse generator_abstract sample_headers =
               Ok ([header_a; header_b], ["b.h"; "a.h"])) by (vm_compute; reflexivity).
  split; [exact H1|]. split; [exact H2|].
  exact (proj2 (proj2 (generate_headers_order_independent sample_to_ffi_signatures
                         sample_c_base_name sample_strategies sample_caption iter_forward
                         iter_forward iter_reverse generator_abstract sample_headers
                         iter_forward_order iter_reverse_order) _ _ _ _ H1 H2)).
Defined.

(** [generate_all] on the abstract-class sample, before the abstract
    classes are known: [A] is found abstract, and the constructor [B::B]
    kept in [a.h] is not the constructor of an abstract class. *)
Lemma generate_all_no_abstract_constructors_witness :
  generate_all sample_to_ffi_signatures sample_c_base_name sample_strategies sample_caption
    iter_forward sample_argument_types_equal 3 split_single_header iter_forward
    generator_unset = Ok ([header_a], ["a.h"]) /\
  exists d m rs, split_single_header (cpp_data generator_unset) !! "a.h" = Some d /\
    In m (methods d) /\ sample_to_ffi_signatures m = inr rs /\ In ctor_of_B rs /\
    forall mem, class_membership m = Some mem -> is_constructor (method_kind mem) = true ->
      forall t bases pv, In t (types (cpp_data generator_unset)) -> kind t = ClassKind bases ->
        maybe_name (class_type mem) = Some (type_name t) ->
        get_pure_virtual_methods sample_argument_types_equal (cpp_data generator_unset) 3
          (type_name t) = Ok pv ->
        pv = [].
Proof.
  assert (H : generate_all sample_to_ffi_signatures sample_c_base_name sample_strategies
                sample_caption iter_forward sample_argument_types_equal 3 split_single_header
                iter_forward generator_unset = Ok ([header_a], ["a.h"]))
    by (vm_compute; reflexivity).
  split; [exact H|].
  exact (generate_all_no_abstract_constructors sample_to_ffi_signatures sample_c_base_name
           sample_strategies sample_caption iter_forward sample_argument_types_equal 3
           split_single_header iter_forward generator_unset _ _ iter_forward_order
           iter_forward_order H header_a (ctor_of_B, "B_B") ltac:(left; reflexivity)
           ltac:(right; left; reflexivity)).
Defined.

(** Adding [/usr/lib], [/opt/lib] and [/usr/lib] again as lib paths keeps
    [/usr/lib; /opt/lib], the first occurrences in order. *)
Lemma build_paths_first_occurrences_witness :
  lib_paths (fold_left (add_lib_path String.eqb) ["/usr/lib"; "/opt/lib"; "/usr/lib"]
               new_build_paths) = ["/usr/lib"; "/opt/lib"] /\
  first_occurrences String.eqb ["/usr/lib"; "/opt/lib"; "/usr/lib"] = ["/usr/lib"; "/opt/lib"].
Proof.
  assert (Hsym : forall p q, String.eqb p q = String.eqb q p) by apply String.eqb_sym.
  assert (Htrans : forall p q r, String.eqb p q = true -> String.eqb q r = true ->
                                 String.eqb p r = true).
  { intros p q r Hpq Hqr. apply String.eqb_eq in Hpq, Hqr. subst. apply String.eqb_refl. }
  destruct (build_paths_first_occurrences String.eqb Hsym Htrans
              ["/usr/lib"; "/opt/lib"; "/usr/lib"] (add_lib_path String.eqb) lib_paths
              ltac:(left; reflexivity)) as (Heq & _ & _).
  assert (Hfo : first_occurrences String.eqb ["/usr/lib"; "/opt/lib"; "/usr/lib"] =
                ["/usr/lib"; "/opt/lib"]) by (vm_compute; reflexivity).
  split; [rewrite Heq; exact Hfo|exact Hfo].
Defined.
